(** * Student performance dashboard: derivation, filtering and aggregation

    A shallow embedding of the data pipeline of [app.py]:
    [load_data] (the derived columns [total_score] and [risk_score]), the
    boolean-mask filter that produces [filtered_df], and the aggregation
    calls behind the charts ([groupby(...).mean().loc[...]], [corr],
    [nlargest]).

    Conventions of the embedding.
    - A float64 cell is a [cell := option Q]: [Some q] is the number [q],
      [None] is NaN, the pandas marker of a missing value.  Arithmetic is
      exact in this layer, which carries the statements about order,
      membership and missing values.  The numbers of the engineered columns
      and of the group means are modelled a second time in [B64], with
      binary64 and int64 arithmetic.
    - An object (string) cell is a [label := option string], [None] again
      being NaN.
    - A DataFrame is the list of its rows in index order; a Series is the
      list of its entries in the same order.  Column-wise pandas operations
      are kept column-wise (maps and zips over Series). *)

From Stdlib Require Import QArith Lqa Floats Uint63.
From stdpp Require Import base option list strings gmap sorting.

Local Open Scope string_scope.
Local Open Scope list_scope.

(** ** Cells and Series *)

Definition cell : Type := option Q.
Definition label : Type := option string.
Definition Series (A : Type) : Type := list A.

Module Cell.

(** [c - x] for a scalar [c]: NaN stays NaN. *)
Definition rsub (c : Q) (x : cell) : cell := (fun v => c - v)%Q <$> x.

(** [x * c] for a scalar [c]. *)
Definition mul (x : cell) (c : Q) : cell := (fun v => v * c)%Q <$> x.

(** [x + y]: NaN if either operand is NaN. *)
Definition add (x y : cell) : cell :=
  match x, y with
  | Some a, Some b => Some (a + b)%Q
  | _, _ => None
  end.

(** [lo <= x <= hi]; every comparison with NaN is False. *)
Definition between (lo hi : Q) (x : cell) : bool :=
  match x with
  | Some v => Qle_bool lo v && Qle_bool v hi
  | None => false
  end.

End Cell.

(** Sum of a list of numbers, left to right from zero. *)
Definition Qsum (xs : list Q) : Q := foldl Qplus 0%Q xs.

(** [dropna]: the defined entries of a Series, in order. *)
Definition dropna (xs : Series cell) : list Q := omap id xs.

(** pandas' [mean] with its default [skipna=True]: the missing entries are
    left out of both the sum and the count; the mean of no entry is NaN. *)
Definition nanmean (xs : Series cell) : cell :=
  match dropna xs with
  | [] => None
  | v :: vs => Some (Qsum (v :: vs) / inject_Z (Z.of_nat (length (v :: vs))))%Q
  end.

(** ** Records *)

(** One line of [processed_student_data.csv]. *)
Record RawRow : Type := mkRawRow {
  student_id : string;
  IQ_test_score : cell;
  English_test_score : cell;
  technical_test_score : cell;
  Soft_skills_Score : cell;
  gpa : cell;
  Result : label;
  financial_aid : label;
  english_level : label
}.

(** A row of [df]: the raw line plus the two engineered columns. *)
Record Row : Type := mkRow {
  raw :> RawRow;
  total_score : cell;
  risk_score : cell
}.

(** The column list written out inside [load_data]. *)
Definition raw_score_cols : list (RawRow → cell) :=
  [IQ_test_score; English_test_score; technical_test_score; Soft_skills_Score].

(** The constants [score_cols] and [result_order] of the script. *)
Definition score_cols : list (Row → cell) :=
  [fun r : Row => IQ_test_score r; fun r : Row => English_test_score r;
   fun r : Row => technical_test_score r; fun r : Row => Soft_skills_Score r].

Definition result_order : list string := ["Accepted"; "pending"; "drop out"].

(** ** load_data *)

Module Frame.

(** [data[col]] *)
Definition column {R A} (col : R → A) (data : list R) : Series A := col <$> data.

(** [data[[c1, ..., ck]]]: per row, the entries of the chosen columns. *)
Definition columns {R A} (cols : list (R → A)) (data : list R) : list (list A) :=
  (fun r => (fun c => c r) <$> cols) <$> data.

(** [.mean(axis=1)] *)
Definition mean_axis1 (block : list (list cell)) : Series cell := nanmean <$> block.

Definition rsub (c : Q) (s : Series cell) : Series cell := Cell.rsub c <$> s.
Definition mul (s : Series cell) (c : Q) : Series cell := (fun x => Cell.mul x c) <$> s.
Definition add (s t : Series cell) : Series cell := zip_with Cell.add s t.

End Frame.

(** The body of [load_data] after [read_csv]; [data] is the table read from
    the file. *)
Definition load_data (data : list RawRow) : list Row :=
  let total := Frame.mean_axis1 (Frame.columns raw_score_cols data) in
  let risk :=
    Frame.add
      (Frame.add
         (Frame.add
            (Frame.mul (Frame.rsub 100 (Frame.column technical_test_score data)) 0.4)
            (Frame.mul (Frame.rsub 100 (Frame.column Soft_skills_Score data)) 0.3))
         (Frame.mul (Frame.rsub 100 (Frame.column English_test_score data)) 0.2))
      (Frame.mul (Frame.rsub 100 (Frame.column IQ_test_score data)) 0.1) in
  zip_with (fun rt k => mkRow rt.1 rt.2 k) (zip data total) risk.

(** ** The filter

    [Result.isin(result_filter)], the two optional equality tests, and
    [gpa.between(lo, hi)], combined with [&] and used as a boolean index. *)

Record Criteria : Type := mkCriteria {
  result_filter : list label;      (* the multiselect *)
  financial_filter : label;        (* selectbox: 'All' or a value of the column *)
  english_filter : label;          (* selectbox: 'All' or a value of the column *)
  gpa_range : Q * Q                (* the slider's pair (lo, hi) *)
}.

(** Python [==] on object cells: NaN equals nothing, not even NaN. *)
Definition label_eqb (a b : label) : bool :=
  match a, b with
  | Some x, Some y => bool_decide (x = y)
  | _, _ => false
  end.

Module Mask.

(** The right operand of [&]: a boolean Series or the scalar [True]. *)
Inductive operand : Type :=
| Scalar (b : bool)
| Column (m : Series bool).

(** [s.isin(values)]; pandas lets a NaN entry match a NaN among the values. *)
Definition isin (s : Series label) (values : list label) : Series bool :=
  (fun x => bool_decide (x ∈ values)) <$> s.

(** [s == v] *)
Definition eq (s : Series label) (v : label) : Series bool :=
  (fun x => label_eqb x v) <$> s.

(** [s.between(lo, hi)], both ends included (the default). *)
Definition between (s : Series cell) (lo hi : Q) : Series bool :=
  Cell.between lo hi <$> s.

(** [m & o] *)
Definition and_ (m : Series bool) (o : operand) : Series bool :=
  match o with
  | Scalar b => (fun x => x && b) <$> m
  | Column m' => zip_with andb m m'
  end.

(** [df[m]]: the rows whose mask entry is True, in index order. *)
Definition select {R} (df : list R) (m : Series bool) : list R :=
  (filter (fun p => p.2 = true) (zip df m)).*1.

End Mask.

Definition filtered_df (c : Criteria) (df : list Row) : list Row :=
  Mask.select df
    (Mask.and_
       (Mask.and_
          (Mask.and_
             (Mask.isin (Frame.column (fun r : Row => Result r) df) (result_filter c))
             (if negb (label_eqb (financial_filter c) (Some "All"))
              then Mask.Column
                     (Mask.eq (Frame.column (fun r : Row => financial_aid r) df) (financial_filter c))
              else Mask.Scalar true))
          (if negb (label_eqb (english_filter c) (Some "All"))
           then Mask.Column
                  (Mask.eq (Frame.column (fun r : Row => english_level r) df) (english_filter c))
           else Mask.Scalar true))
       (Mask.Column
          (Mask.between (Frame.column (fun r : Row => gpa r) df) (gpa_range c).1 (gpa_range c).2))).

(** ** Outcomes of a Python expression *)

(** Either a value or a raised exception, named by its class. *)
Inductive outcome (A : Type) : Type :=
| Returned (a : A)
| Raised (cls : string).
Arguments Returned {A} a.
Arguments Raised {A} cls.

#[global] Instance outcome_ret : MRet outcome := fun A a => Returned a.

#[global] Instance outcome_bind : MBind outcome := fun A B k m =>
  match m with
  | Returned a => k a
  | Raised cls => Raised cls
  end.

(** ** Grouped means

    [available_results = [r for r in result_order if r in filtered_df['Result'].unique()]]
    [mean_scores = filtered_df.groupby('Result')[score_cols].mean().loc[available_results].T] *)

(** [s.unique()]: the distinct entries in order of first appearance. *)
Definition unique {A} `{EqDecision A} (s : Series A) : list A :=
  foldl (fun seen x => if bool_decide (x ∈ seen) then seen else seen ++ [x]) [] s.

(** [r in arr] for a string [r] and an object array: some entry equals [r]. *)
Definition in_array (r : string) (arr : list label) : bool :=
  existsb (fun x => label_eqb x (Some r)) arr.

Module GroupBy.

(** [df.groupby(key)]: the rows of each key, in index order; rows whose key
    is NaN belong to no group (the default [dropna=True]). *)
Definition groupby {R} (key : R → label) (df : list R) : gmap string (list R) :=
  foldr (fun r g =>
           match key r with
           | Some k => <[k := r :: default [] (g !! k)]> g
           | None => g
           end) ∅ df.

(** [groups[cols].mean()]: per group, the mean of each chosen column. *)
Definition mean {R} (cols : list (R → cell)) (groups : gmap string (list R))
  : gmap string (list cell) :=
  (fun rows => (fun c => nanmean (Frame.column c rows)) <$> cols) <$> groups.

(** [frame.loc[labels]]: the rows with these labels, in the order asked;
    a label the frame does not have raises [KeyError]. *)
Fixpoint loc {V} (frame : gmap string V) (labels : list string)
  : outcome (list (string * V)) :=
  match labels with
  | [] => mret []
  | l :: labels' =>
      match frame !! l with
      | Some v => rest ← loc frame labels'; mret ((l, v) :: rest)
      | None => Raised "KeyError"
      end
  end.

End GroupBy.

Definition available_results (order : list string) (df : list Row) : list string :=
  filter (fun r => in_array r (unique (Frame.column (fun r : Row => Result r) df))) order.

(** The frame of group means, kept as the list of its groups: after [.T]
    these are the columns [mean_scores[result]], each listing the means of
    [score_cols] in order. *)
Definition group_means (order : list string) (df : list Row)
  : outcome (list (string * list cell)) :=
  GroupBy.loc (GroupBy.mean score_cols (GroupBy.groupby (fun r : Row => Result r) df))
    (available_results order df).

Definition mean_scores (df : list Row) : outcome (list (string * list cell)) :=
  group_means result_order df.

(** ** Correlation matrix

    [filtered_df[score_cols + ['gpa']].corr()]: Pearson's coefficient over
    the rows where both columns are defined ([min_periods=1]); NaN when no
    such row exists or when the divisor vanishes.  The square root is the
    one numeric primitive left abstract. *)

Section Corr.

Variable sqrt : Q → Q.

Definition complete_pairs (x y : Series cell) : list (Q * Q) :=
  omap (fun p => match p with
                 | (Some u, Some v) => Some (u, v)
                 | _ => None
                 end) (zip x y).

Definition pearson (x y : Series cell) : cell :=
  let ps := complete_pairs x y in
  let nobs := inject_Z (Z.of_nat (length ps)) in
  if (length ps <? 1)%nat then None
  else
    let mx := (Qsum ps.*1 / nobs)%Q in
    let my := (Qsum ps.*2 / nobs)%Q in
    let ssx := Qsum ((fun p => (p.1 - mx) * (p.1 - mx))%Q <$> ps) in
    let ssy := Qsum ((fun p => (p.2 - my) * (p.2 - my))%Q <$> ps) in
    let cov := Qsum ((fun p => (p.1 - mx) * (p.2 - my))%Q <$> ps) in
    let divisor := sqrt (ssx * ssy)%Q in
    if Qeq_bool divisor 0 then None else Some (cov / divisor)%Q.

Definition corr {R} (cols : list (R → cell)) (df : list R) : list (list cell) :=
  (fun cx => (fun cy => pearson (Frame.column cx df) (Frame.column cy df)) <$> cols)
    <$> cols.

Definition corr_matrix (df : list Row) : list (list cell) :=
  corr (score_cols ++ [fun r : Row => gpa r]) df.

End Corr.

(** ** Top rows by a column

    [filtered_df.nlargest(10, 'risk_score')]: the first [n] rows of the frame
    ordered by the column, largest first, [keep='first'] on ties; rows whose
    entry is NaN rank after all others, in index order.  The order among
    rows that tie is the one of a stable sort; [SelectN] below tells the two
    paths of the call apart. *)

Module TopN.

(** The rows with a defined entry, each paired with it. *)
Definition keyed {R} (key : R → cell) (df : list R) : list (Q * R) :=
  omap (fun r => (fun q => (q, r)) <$> key r) df.

(** Insertion in front of the first entry that is not larger. *)
Fixpoint insert_desc {R} (p : Q * R) (l : list (Q * R)) : list (Q * R) :=
  match l with
  | [] => [p]
  | x :: l' => if Qle_bool x.1 p.1 then p :: x :: l' else x :: insert_desc p l'
  end.

(** Stable sort, largest entry first. *)
Definition sort_desc {R} (l : list (Q * R)) : list (Q * R) :=
  foldr insert_desc [] l.

(** [df.sort_values(key, ascending=False)] with [na_position='last']. *)
Definition sort_values_desc {R} (key : R → cell) (df : list R) : list R :=
  (sort_desc (keyed key df)).*2 ++ filter (fun r => key r = None) df.

Definition nlargest {R} (n : nat) (key : R → cell) (df : list R) : list R :=
  take n (sort_values_desc key df).

End TopN.

Definition high_risk (df : list Row) : list Row :=
  TopN.nlargest 10 risk_score df.

(** ** Row-wise readings used in the statements *)

(** The two engineered columns of one row. *)
Definition derive (r : RawRow) : Row :=
  mkRow r
    (nanmean ((fun c => c r) <$> raw_score_cols))
    (Cell.add
       (Cell.add
          (Cell.add
             (Cell.mul (Cell.rsub 100 (technical_test_score r)) 0.4)
             (Cell.mul (Cell.rsub 100 (Soft_skills_Score r)) 0.3))
          (Cell.mul (Cell.rsub 100 (English_test_score r)) 0.2))
       (Cell.mul (Cell.rsub 100 (IQ_test_score r)) 0.1)).

(** The four raw scores of a row, in the order of [score_cols]. *)
Definition raw_scores (r : RawRow) : list cell :=
  [IQ_test_score r; English_test_score r; technical_test_score r; Soft_skills_Score r].

(** The mask of the filter, read for one row. *)
Definition row_mask (c : Criteria) (r : Row) : bool :=
  bool_decide (Result r ∈ result_filter c)
  && (if negb (label_eqb (financial_filter c) (Some "All"))
      then label_eqb (financial_aid r) (financial_filter c) else true)
  && (if negb (label_eqb (english_filter c) (Some "All"))
      then label_eqb (english_level r) (english_filter c) else true)
  && Cell.between (gpa_range c).1 (gpa_range c).2 (gpa r).

(** Comparisons of rationals are decidable. *)
#[global] Instance Qle_dec (x y : Q) : Decision (x <= y)%Q :=
  match Qlt_le_dec y x with
  | left H => right (Qlt_not_le _ _ H)
  | right H => left H
  end.

#[global] Instance Qeq_decision (x y : Q) : Decision (x == y)%Q := Qeq_dec x y.

(** The four predicates of the filter, as the specification words them. *)

(** A selectbox constraint: the sentinel ['All'], or an exact match. *)
Definition passes_choice (choice value : label) : Prop :=
  choice = Some "All" ∨ (is_Some value ∧ value = choice).

(** The GPA is a number of the closed interval. *)
Definition in_gpa_range (range : Q * Q) (g : cell) : Prop :=
  match g with
  | Some v => (range.1 <= v)%Q ∧ (v <= range.2)%Q
  | None => False
  end.

Definition keeps (c : Criteria) (r : Row) : Prop :=
  Result r ∈ result_filter c ∧
  passes_choice (financial_filter c) (financial_aid r) ∧
  passes_choice (english_filter c) (english_level r) ∧
  in_gpa_range (gpa_range c) (gpa r).

#[global] Instance passes_choice_dec choice value : Decision (passes_choice choice value).
Proof. unfold passes_choice. apply _. Defined.

#[global] Instance in_gpa_range_dec range g : Decision (in_gpa_range range g).
Proof. unfold in_gpa_range. destruct g; apply _. Defined.

#[global] Instance keeps_dec c r : Decision (keeps c r).
Proof. unfold keeps. apply _. Defined.

(** One GPA range inside another: every number of the first is in the second. *)
Definition range_within (narrow wide : Q * Q) : Prop :=
  ∀ v : Q, (narrow.1 <= v)%Q ∧ (v <= narrow.2)%Q → (wide.1 <= v)%Q ∧ (v <= wide.2)%Q.

(** Ranking of column entries, largest first, NaN after every number. *)
Definition cell_ge (a b : cell) : Prop :=
  match a, b with
  | Some x, Some y => (y <= x)%Q
  | _, None => True
  | None, Some _ => False
  end.

(** Keyed rows ranked by their entry, largest first. *)
Definition desc {R} : relation (Q * R) := fun p q => (q.1 <= p.1)%Q.

(** Two entries tie: the same number, or both NaN. *)
Definition ties (k x : cell) : Prop :=
  match k, x with
  | Some a, Some b => (a == b)%Q
  | None, None => True
  | _, _ => False
  end.

#[global] Instance ties_dec k x : Decision (ties k x).
Proof. destruct k, x; cbn; apply _. Defined.

(** ** Sample data *)

Module Sample.

Local Open Scope Q_scope.

Definition student (id : string) (iq en te so g : cell) (res fa el : label) : RawRow :=
  mkRawRow id iq en te so g res fa el.

(** All four scores at 80. *)
Definition even80 : RawRow :=
  student "s1" (Some 80) (Some 80) (Some 80) (Some 80) (Some 3.0)
    (Some "Accepted") (Some "Yes") (Some "B2").

(** The IQ score is missing, the other three are 80. *)
Definition no_iq : RawRow :=
  student "s2" None (Some 80) (Some 80) (Some 80) (Some 2.5)
    (Some "pending") (Some "No") (Some "B1").

(** Four students whose GPAs are 1.5, 2.0, 3.0 and 4.0. *)
Definition by_gpa : list RawRow :=
  [student "g1" (Some 70) (Some 70) (Some 70) (Some 70) (Some 1.5)
     (Some "drop out") (Some "No") (Some "A2");
   student "g2" (Some 60) (Some 75) (Some 80) (Some 65) (Some 2.0)
     (Some "pending") (Some "Yes") (Some "B1");
   student "g3" (Some 90) (Some 85) (Some 80) (Some 75) (Some 3.0)
     (Some "Accepted") (Some "No") (Some "B2");
   student "g4" (Some 95) (Some 90) (Some 85) (Some 80) (Some 4.0)
     (Some "Accepted") (Some "Yes") (Some "C1")].

(** No GPA on file. *)
Definition no_gpa : RawRow :=
  student "s3" (Some 55) (Some 65) (Some 75) (Some 85) None
    (Some "Accepted") (Some "Yes") (Some "B2").

(** Five students; "t2" and "t4" tie on every score, "t3" has no
    technical score and hence no [risk_score]. *)
Definition cohort : list RawRow :=
  [student "t1" (Some 90) (Some 90) (Some 90) (Some 90) (Some 3.5)
     (Some "Accepted") (Some "No") (Some "C1");
   student "t2" (Some 50) (Some 60) (Some 70) (Some 90) (Some 2.0)
     (Some "pending") (Some "Yes") (Some "B1");
   student "t3" (Some 40) (Some 40) None (Some 40) (Some 1.0)
     (Some "drop out") (Some "Yes") (Some "A2");
   student "t4" (Some 50) (Some 60) (Some 70) (Some 90) (Some 2.5)
     (Some "pending") (Some "No") (Some "B1");
   student "t5" (Some 30) (Some 30) (Some 30) (Some 30) (Some 1.5)
     (Some "drop out") None (Some "A1")].

Definition every_result : list label :=
  [Some "Accepted"; Some "pending"; Some "drop out"].

(** Every outcome, no selectbox constraint, GPA between [lo] and [hi]. *)
Definition gpa_only (lo hi : Q) : Criteria :=
  mkCriteria every_result (Some "All") (Some "All") (lo, hi).

End Sample.

(** ** The sidebar and the remaining views *)

(** The widgets as first drawn: every outcome of the column selected in the
    multiselect, ['All'] in both selectboxes, the slider at (0.0, 4.0). *)
Definition default_criteria (df : list Row) : Criteria :=
  mkCriteria (unique (Frame.column (fun r : Row => Result r) df))
    (Some "All") (Some "All") (0.0, 4.0)%Q.

(** The options of a selectbox: [['All'] + list(df[col].unique())]. *)
Definition selectbox_options (col : Row → label) (df : list Row) : list label :=
  Some "All" :: unique (Frame.column col df).

(** [len(df[df['Result'] == value]) / len(df) * 100]: Python's true division
    raises [ZeroDivisionError] on a zero divisor. *)
Definition share_of (value : string) (df : list Row) : outcome Q :=
  let hits :=
    Mask.select df (Mask.eq (Frame.column (fun r : Row => Result r) df) (Some value)) in
  if decide (length df = 0%nat) then Raised "ZeroDivisionError"
  else Returned (inject_Z (Z.of_nat (length hits))
                 / inject_Z (Z.of_nat (length df)) * 100)%Q.

(** The constant [result_colors]. *)
Definition result_colors : gmap string string :=
  <["Accepted" := "#2ecc71"]> (<["pending" := "#f39c12"]> (<["drop out" := "#e74c3c"]> ∅)).

(** [d[k]] on a dict, and [frame[k]] on the columns of a frame: [KeyError]
    when the key is missing. *)
Definition getitem {V} (d : gmap string V) (k : string) : outcome V :=
  match d !! k with
  | Some v => Returned v
  | None => Raised "KeyError"
  end.

(** One [go.Bar] of the grouped bar chart: its name, its heights and its
    colour. *)
Record Bar : Type := mkBar {
  bar_name : string;
  bar_y : list cell;
  marker_color : string
}.

(** The loop over [available_results] that adds one trace per outcome,
    reading [mean_scores[result]] and [result_colors[result]]. *)
Definition bar_traces (df : list Row) : outcome (list Bar) :=
  frame ← mean_scores df;
  mapM (fun result =>
          y ← getitem (list_to_map frame) result;
          color ← getitem result_colors result;
          mret (mkBar result y color))
       (available_results result_order df).

(** Predicates used in the statements below. *)

(** A cell is either missing or a number of the closed interval. *)
Definition cell_within (lo hi : Q) (x : cell) : Prop :=
  match x with
  | Some v => (lo <= v)%Q ∧ (v <= hi)%Q
  | None => True
  end.

(** Equality of cells as numbers. *)
Definition cell_equiv (x y : cell) : Prop :=
  match x, y with
  | Some a, Some b => (a == b)%Q
  | None, None => True
  | _, _ => False
  end.

(** The entry of a matrix at row [i] and column [j]. *)
Definition entry (m : list (list cell)) (i j : nat) : option cell :=
  row ← m !! i; row !! j.

(** One set of criteria is at least as permissive as another, widget by
    widget. *)
Definition widens (narrow wide : Criteria) : Prop :=
  result_filter narrow ⊆ result_filter wide ∧
  (financial_filter wide = Some "All" ∨ financial_filter wide = financial_filter narrow) ∧
  (english_filter wide = Some "All" ∨ english_filter wide = english_filter narrow) ∧
  range_within (gpa_range narrow) (gpa_range wide).

(** More sample data. *)

Module Demo.

Local Open Scope Q_scope.

(** The missing-value entry picked in the "Financial Aid" selectbox. *)
Definition nan_aid : Criteria :=
  mkCriteria Sample.every_result None (Some "All") (0.0, 4.0).

(** A square root on the rationals, exact on squares and rounded down
    otherwise. *)
Definition floor_sqrt (x : Q) : Q :=
  let r := Qred x in Z.sqrt (Qnum r) # Pos.sqrt (Qden r).

(** Accepted students with financial aid and a GPA between 2.0 and 3.0. *)
Definition accepted_aided : Criteria :=
  mkCriteria [Some "Accepted"] (Some "Yes") (Some "All") (2.0, 3.0).

(** Five students: "r01" with every score at 60 and so a risk of 40, the
    others with every score at 40 and a risk of 60. *)
Definition tied : list RawRow :=
  [Sample.student "r01" (Some 60) (Some 60) (Some 60) (Some 60) (Some 3.0)
     (Some "Accepted") (Some "No") (Some "B2");
   Sample.student "r02" (Some 40) (Some 40) (Some 40) (Some 40) (Some 2.0)
     (Some "pending") (Some "No") (Some "B1");
   Sample.student "r03" (Some 40) (Some 40) (Some 40) (Some 40) (Some 2.1)
     (Some "pending") (Some "Yes") (Some "B1");
   Sample.student "r04" (Some 40) (Some 40) (Some 40) (Some 40) (Some 2.2)
     (Some "drop out") (Some "No") (Some "A2");
   Sample.student "r05" (Some 40) (Some 40) (Some 40) (Some 40) (Some 2.3)
     (Some "drop out") (Some "Yes") (Some "A2")].

(** A sort, largest entry first, that lists the entries that tie in the
    reverse of the order it receives them in. *)
Definition ties_reversed {R} (l : list (Q * R)) : list (Q * R) :=
  TopN.sort_desc (reverse l).

End Demo.

(** ** [nlargest] with the sort pandas runs

    [nlargest] has two paths.  On a table of more than [n] rows it selects
    and orders the rows with a stable merge sort.  On a table of at most [n]
    rows it returns [sort_values(ascending=False).head(n)], and [sort_values]
    sorts with its default [kind='quicksort'], which numpy does not promise
    to be stable: which of the rows that tie comes first is up to the numpy
    build.  That sort is a parameter here. *)

Module SelectN.

(** [sort_values(ascending=False)] with the sort [kind]: the rows with a
    value sorted by [kind], then the rows without, in index order
    ([na_position='last']). *)
Definition sort_values_desc {R} (kind : list (Q * R) → list (Q * R))
    (key : R → cell) (df : list R) : list R :=
  (kind (TopN.keyed key df)).*2 ++ filter (fun r => key r = None) df.

Definition nlargest {R} (quicksort : list (Q * R) → list (Q * R))
    (n : nat) (key : R → cell) (df : list R) : list R :=
  if decide (length df <= n)%nat
  then take n (sort_values_desc quicksort key df)
  else take n (sort_values_desc TopN.sort_desc key df).

(** Line 176. *)
Definition high_risk (quicksort : list (Q * Row) → list (Q * Row)) (df : list Row)
  : list Row :=
  nlargest quicksort 10 risk_score df.

End SelectN.

(** What every sort kind does: it returns its input rearranged, largest
    entry first. *)
Definition sorts_descending {R} (kind : list (Q * R) → list (Q * R)) : Prop :=
  ∀ l, kind l ≡ₚ l ∧ StronglySorted desc (kind l).

(** ** The engineered columns and the group means in machine arithmetic

    The layer above computes with exact rationals, which is enough for what
    depends on order and on missing values only.  The numbers the script
    shows are binary64: every sum, product and quotient is rounded, and an
    integer column is int64, where [100 - column] wraps around.  This module
    models lines 25-30 and 111-112 with those numbers. *)

Set Warnings "-inexact-float".

Module B64.

(** A cell of a numeric column: an int64 column holds integers from -2^63
    to 2^63 - 1, a float64 column holds binary64 numbers, NaN standing for a
    missing value. *)
Inductive num : Type :=
| I64 (z : Z)
| F64 (x : float).

(** int64 arithmetic wraps around. *)
Definition wrap64 (z : Z) : Z := ((z + 2 ^ 63) mod 2 ^ 64 - 2 ^ 63)%Z.

(** int64 to float64, rounded to nearest. *)
Definition of_int64 (z : Z) : float :=
  if (z <? 0)%Z then
    if (z =? - 2 ^ 63)%Z then (- 0x1p63)%float
    else (- of_uint63 (Uint63.of_Z (- z)))%float
  else of_uint63 (Uint63.of_Z z).

(** The float64 value of a cell (what [astype(float64)] gives). *)
Definition to_float (c : num) : float :=
  match c with
  | I64 z => of_int64 z
  | F64 x => x
  end.

(** [val != val]: the test for a missing value. *)
Definition isna (x : float) : bool := negb (x =? x)%float.

(** [c - x] for the Python integer [c], in the type of the column. *)
Definition rsub (c : Z) (x : num) : num :=
  match x with
  | I64 z => I64 (wrap64 (c - z))
  | F64 f => F64 (of_int64 c - f)
  end.

(** [x * w] for the Python float [w]: the result is float64. *)
Definition mul (x : num) (w : float) : float := (to_float x * w)%float.

(** [nanops.nanmean] on one row of the block: missing entries are set to
    0, the entries are added from the first one on, and the sum is divided
    by the number of entries that were not missing. *)
Definition nanmean (xs : list float) : float :=
  let count := length (filter (fun x => isna x = false) xs) in
  let filled := (fun x => if isna x then 0%float else x) <$> xs in
  let the_sum :=
    match filled with
    | [] => 0%float
    | v :: vs => foldl PrimFloat.add v vs
    end in
  (the_sum / of_int64 (Z.of_nat count))%float.

(** One line of the file, as far as lines 25-30 and 111-112 read it. *)
Record RawRow : Type := mkRawRow {
  Result : label;
  IQ_test_score : num;
  English_test_score : num;
  technical_test_score : num;
  Soft_skills_Score : num
}.

Record Row : Type := mkRow {
  raw :> RawRow;
  total_score : float;
  risk_score : float
}.

Definition raw_score_cols : list (RawRow → num) :=
  [IQ_test_score; English_test_score; technical_test_score; Soft_skills_Score].

Definition score_cols : list (Row → num) :=
  [fun r : Row => IQ_test_score r; fun r : Row => English_test_score r;
   fun r : Row => technical_test_score r; fun r : Row => Soft_skills_Score r].

(** [.mean(axis=1)]: the block is cast to float64 and reduced row by row. *)
Definition mean_axis1 (block : list (list num)) : Series float :=
  (fun row => nanmean (to_float <$> row)) <$> block.

Definition load_data (data : list RawRow) : list Row :=
  let total := mean_axis1 (Frame.columns raw_score_cols data) in
  let risk :=
    zip_with PrimFloat.add
      (zip_with PrimFloat.add
         (zip_with PrimFloat.add
            ((fun x => mul x 0.4) <$> (rsub 100 <$> Frame.column technical_test_score data))
            ((fun x => mul x 0.3) <$> (rsub 100 <$> Frame.column Soft_skills_Score data)))
         ((fun x => mul x 0.2) <$> (rsub 100 <$> Frame.column English_test_score data)))
      ((fun x => mul x 0.1) <$> (rsub 100 <$> Frame.column IQ_test_score data)) in
  zip_with (fun rt k => mkRow rt.1 rt.2 k) (zip data total) risk.

(** *** Group means

    [groupby('Result')[score_cols].mean()] runs pandas' [group_mean]: one
    pass over the rows, with, for every group and column, a count of the
    entries seen, a running sum and the compensation term of Kahan's
    summation. *)

Record acc : Type := mkAcc {
  nobs : Z;
  sumx : float;
  compensation : float
}.

Definition acc0 : acc := mkAcc 0 0 0.

Definition kahan_add (a : acc) (val : float) : acc :=
  if isna val then a
  else
    let y := (val - compensation a)%float in
    let t := (sumx a + y)%float in
    let c := (t - sumx a - y)%float in
    mkAcc (nobs a + 1) t (if isna c then 0%float else c).

Definition finish (a : acc) : float :=
  if (nobs a =? 0)%Z then nan else (sumx a / of_int64 (nobs a))%float.

Definition group_mean_step {R} (key : R → label) (cols : list (R → num))
    (st : gmap string (list acc)) (r : R) : gmap string (list acc) :=
  match key r with
  | Some k =>
      <[k := zip_with kahan_add
               (default (replicate (length cols) acc0) (st !! k))
               ((fun c => to_float (c r)) <$> cols)]> st
  | None => st
  end.

Definition group_mean {R} (key : R → label) (cols : list (R → num)) (df : list R)
  : gmap string (list float) :=
  (fun accs : list acc => finish <$> accs)
    <$> (foldl (group_mean_step key cols) ∅ df : gmap string (list acc)).

Definition available_results (order : list string) (df : list Row) : list string :=
  filter (fun r => in_array r (unique (Frame.column (fun r : Row => Result r) df))) order.

Definition group_means (order : list string) (df : list Row)
  : outcome (list (string * list float)) :=
  GroupBy.loc (group_mean (fun r : Row => Result r) score_cols df)
    (available_results order df).

Definition mean_scores (df : list Row) : outcome (list (string * list float)) :=
  group_means result_order df.

End B64.

Coercion B64.raw : B64.Row >-> B64.RawRow.

(** Equality of binary64 numbers as data is decidable. *)
#[global] Instance float_eq_dec : EqDecision float.
Proof.
  intros x y. destruct (PrimFloat.Leibniz.eqb x y) eqn:E.
  - left. by apply FloatAxioms.Leibniz.eqb_spec.
  - right. intros Heq. apply FloatAxioms.Leibniz.eqb_spec in Heq. congruence.
Defined.

(** What the statements about machine numbers are measured against. *)

Module Exact.

(** The rational a binary64 number stands for; none for NaN and the
    infinities. *)
Definition of_spec (x : spec_float) : option Q :=
  match x with
  | S754_zero _ => Some 0%Q
  | S754_finite s m e =>
      Some ((if s then - inject_Z (Zpos m) else inject_Z (Zpos m)) * 2 ^ e)%Q
  | S754_infinity _ | S754_nan => None
  end.

Definition of_float (x : float) : option Q := of_spec (Prim2SF x).

(** The rational a cell stands for. *)
Definition of_cell (c : B64.num) : option Q :=
  match c with
  | B64.I64 z => Some (inject_Z z)
  | B64.F64 x => of_float x
  end.

(** The weighted deficit of the specification, in exact arithmetic. *)
Definition weighted_deficit (iq en te so : Q) : Q :=
  (0.4 * (100 - te) + 0.3 * (100 - so) + 0.2 * (100 - en) + 0.1 * (100 - iq))%Q.

(** The arithmetic mean of a non-empty list, in exact arithmetic. *)
Definition mean (vs : list Q) : Q :=
  (fold_right Qplus 0 vs / inject_Z (Z.of_nat (length vs)))%Q.

End Exact.

(** Row-wise reading of [B64.load_data], and the words of the statements
    about it. *)

Module Reading.

(** The two engineered columns of one row. *)
Definition derive (r : B64.RawRow) : B64.Row :=
  B64.mkRow r
    (B64.nanmean (B64.to_float <$> ((fun c => c r) <$> B64.raw_score_cols)))
    (B64.mul (B64.rsub 100 (B64.technical_test_score r)) 0.4
     + B64.mul (B64.rsub 100 (B64.Soft_skills_Score r)) 0.3
     + B64.mul (B64.rsub 100 (B64.English_test_score r)) 0.2
     + B64.mul (B64.rsub 100 (B64.IQ_test_score r)) 0.1)%float.

(** A number is missing when it is NaN. *)
Definition missing (x : float) : bool := PrimFloat.Leibniz.eqb x nan.

(** What a score adds to the sum of a row: nothing when it is missing. *)
Definition contribution (x : float) : float := if missing x then 0%float else x.

(** How many of the scores are on file, as a binary64 number. *)
Definition on_file (xs : list float) : float :=
  B64.of_int64 (Z.of_nat (length (filter (fun x => missing x = false) xs))).

(** [100 - score], in the arithmetic of the score's own column and then as
    a binary64 number. *)
Definition deficit (c : B64.num) : float :=
  match c with
  | B64.I64 z => B64.of_int64 (B64.wrap64 (100 - z))
  | B64.F64 x => (100 - x)%float
  end.

(** A cell that holds the number 80. *)
Definition holds_80 (c : B64.num) : Prop := c = B64.I64 80 ∨ c = B64.F64 80.

(** Kahan's compensated sum of a list, from a running sum and a
    compensation term. *)
Fixpoint compensated_sum (s c : float) (vs : list float) : float :=
  match vs with
  | [] => s
  | v :: vs' =>
      let y := (v - c)%float in
      let t := (s + y)%float in
      let c' := (t - s - y)%float in
      compensated_sum t (if missing c' then 0%float else c') vs'
  end.

(** The mean pandas assigns to the entries of a group: NaN for no entry,
    else the compensated sum divided by the number of entries. *)
Definition compensated_mean (vs : list float) : float :=
  match vs with
  | [] => nan
  | _ => (compensated_sum 0 0 vs / B64.of_int64 (Z.of_nat (length vs)))%float
  end.

(** The entries of a column that are on file among the rows of an outcome,
    in table order. *)
Definition entries (col : B64.Row → B64.num) (k : string) (df : list B64.Row)
  : list float :=
  filter (fun x => missing x = false)
    ((fun r => B64.to_float (col r)) <$> filter (fun r : B64.Row => B64.Result r = Some k) df).

(** Zero or a finite non-zero number. *)
Definition finite_sf (x : spec_float) : Prop :=
  match x with
  | S754_zero _ | S754_finite _ _ _ => True
  | _ => False
  end.

End Reading.

(** Sample rows with machine numbers. *)

Module Sample64.

Definition student (res : string) (iq en te so : B64.num) : B64.RawRow :=
  B64.mkRawRow (Some res) iq en te so.

(** Integer scores 97, 98, 0 and 89. *)
Definition uneven : B64.RawRow :=
  student "pending" (B64.I64 97) (B64.I64 98) (B64.I64 0) (B64.I64 89).

(** The IQ score is missing, the others are 80, 80 and 81. *)
Definition no_iq : B64.RawRow :=
  student "pending" (B64.F64 nan) (B64.F64 80) (B64.F64 80) (B64.F64 81).

(** Scores 0.1, 0.2, 0.3 and 0.4. *)
Definition tenths : B64.RawRow :=
  student "drop out" (B64.F64 0.1) (B64.F64 0.2) (B64.F64 0.3) (B64.F64 0.4).

(** All four scores at 80, read as integers. *)
Definition even80 : B64.RawRow :=
  student "Accepted" (B64.I64 80) (B64.I64 80) (B64.I64 80) (B64.I64 80).

(** Three accepted students with an IQ score of 0.1. *)
Definition three_tenths : list B64.RawRow :=
  [student "Accepted" (B64.F64 0.1) (B64.I64 70) (B64.I64 80) (B64.I64 90);
   student "Accepted" (B64.F64 0.1) (B64.I64 75) (B64.I64 85) (B64.I64 95);
   student "Accepted" (B64.F64 0.1) (B64.I64 60) (B64.I64 65) (B64.I64 70)].

End Sample64.

(** * Theorems *)

(** ** Derived columns *)

Lemma load_data_rowwise (data : list RawRow) : load_data data = derive <$> data.
Proof.
  unfold load_data, Frame.mean_axis1, Frame.columns, Frame.add, Frame.mul,
    Frame.rsub, Frame.column.
  induction data as [|r data IH]; [done|].
  cbn [fmap list_fmap zip zip_with]. f_equal. exact IH.
Qed.

Lemma elem_of_load_data (data : list RawRow) (row : Row) :
  row ∈ load_data data ↔ ∃ r, r ∈ data ∧ row = derive r.
Proof.
  rewrite load_data_rowwise, list_elem_of_fmap.
  split; intros (r & H1 & H2); exists r; split; assumption.
Qed.

(** ** The filter *)

Lemma select_fmap {R} (f : R → bool) (df : list R) :
  Mask.select df (f <$> df) = filter (fun r => f r = true) df.
Proof.
  unfold Mask.select. induction df as [|r df IH]; [done|].
  cbn [fmap list_fmap zip zip_with]. rewrite !filter_cons. cbn [snd].
  destruct (decide (f r = true)); cbn; by rewrite IH.
Qed.

Lemma and_scalar_fmap {R} (f : R → bool) (b : bool) (df : list R) :
  Mask.and_ (f <$> df) (Mask.Scalar b) = (fun r => f r && b) <$> df.
Proof. cbn. by rewrite <- list_fmap_compose. Qed.

Lemma and_column_fmap {R} (f g : R → bool) (df : list R) :
  Mask.and_ (f <$> df) (Mask.Column (g <$> df)) = (fun r => f r && g r) <$> df.
Proof. cbn. induction df as [|r df IH]; [done|]. cbn. by rewrite IH. Qed.

Lemma filtered_df_row_mask (c : Criteria) (df : list Row) :
  filtered_df c df = filter (fun r => row_mask c r = true) df.
Proof.
  unfold filtered_df, Mask.isin, Mask.eq, Mask.between, Frame.column.
  rewrite <- !list_fmap_compose, <- select_fmap. f_equal.
  unfold row_mask.
  destruct (negb (label_eqb (financial_filter c) (Some "All")));
    destruct (negb (label_eqb (english_filter c) (Some "All")));
    repeat first [rewrite and_column_fmap | rewrite and_scalar_fmap]; reflexivity.
Qed.

Lemma label_eqb_true (a b : label) :
  label_eqb a b = true ↔ is_Some a ∧ a = b.
Proof.
  destruct a as [x|], b as [y|]; cbn; rewrite ?bool_decide_eq_true.
  - split; [intros ->; eauto | intros [_ [= ->]]; done].
  - split; [done | intros [_ [=]]].
  - split; [done | intros [[? [=]] _]].
  - split; [done | intros [[? [=]] _]].
Qed.

Lemma label_eqb_All (choice : label) :
  label_eqb choice (Some "All") = true ↔ choice = Some "All".
Proof.
  rewrite label_eqb_true. split; [tauto | intros ->; eauto].
Qed.

Lemma choice_mask_passes (choice value : label) :
  (if negb (label_eqb choice (Some "All")) then label_eqb value choice else true) = true
  ↔ passes_choice choice value.
Proof.
  unfold passes_choice. pose proof (label_eqb_All choice) as HAll.
  destruct (label_eqb choice (Some "All")); cbn.
  - split; [intros _; left; by apply HAll | done].
  - rewrite label_eqb_true. split; [tauto|].
    intros [H|H]; [|done]. apply HAll in H. discriminate H.
Qed.

Lemma between_in_gpa_range (lo hi : Q) (g : cell) :
  Cell.between lo hi g = true ↔ in_gpa_range (lo, hi) g.
Proof.
  destruct g as [v|]; cbn; [|done].
  by rewrite andb_true_iff, !Qle_bool_iff.
Qed.

Lemma row_mask_keeps (c : Criteria) (r : Row) : row_mask c r = true ↔ keeps c r.
Proof.
  unfold row_mask, keeps. rewrite !andb_true_iff, bool_decide_eq_true,
    !choice_mask_passes. destruct (gpa_range c) as [lo hi].
  rewrite between_in_gpa_range. tauto.
Qed.

Lemma filtered_df_filter (c : Criteria) (df : list Row) :
  filtered_df c df = filter (keeps c) df.
Proof.
  rewrite filtered_df_row_mask. apply list_filter_iff. intros r. apply row_mask_keeps.
Qed.

Lemma elem_of_filtered_df (c : Criteria) (df : list Row) (r : Row) :
  r ∈ filtered_df c df ↔ r ∈ df ∧ keeps c r.
Proof. rewrite filtered_df_filter, list_elem_of_filter. tauto. Qed.

(** C3.  The filtered table is exactly the rows of the input that satisfy the
    four predicates together (outcome among the chosen ones, financial aid
    and English level each equal to the choice unless the choice is ['All'],
    GPA within the closed interval), in their original order; with the range
    (2.0, 4.0) the GPAs 1.5, 2.0, 3.0, 4.0 leave 2.0, 3.0, 4.0. *)
Theorem filtered_df_exactly_keeps (c : Criteria) (df : list Row) :
  filtered_df c df = filter (keeps c) df ∧
  filtered_df c df `sublist_of` df ∧
  (∀ r, r ∈ filtered_df c df ↔ r ∈ df ∧ keeps c r) ∧
  (fun r : Row => gpa r)
    <$> filtered_df (Sample.gpa_only 2.0 4.0) (load_data Sample.by_gpa)
  = [Some 2.0%Q; Some 3.0%Q; Some 4.0%Q].
Proof.
  split; [apply filtered_df_filter|]. split; [|split].
  - rewrite filtered_df_filter. apply sublist_filter.
  - intros r. apply elem_of_filtered_df.
  - reflexivity.
Qed.

Lemma filter_none {A} (P : A → Prop) `{∀ x, Decision (P x)} (l : list A) :
  Forall (fun x => ¬ P x) l → filter P l = [].
Proof.
  induction 1 as [|x l Hx _ IH]; [done|].
  by rewrite filter_cons_False.
Qed.

(** C5.  Filtering is idempotent: filtering a filtered table again with the
    same criteria changes nothing. *)
Theorem filtered_df_idempotent (c : Criteria) (df : list Row) :
  filtered_df c (filtered_df c df) = filtered_df c df.
Proof.
  rewrite !filtered_df_filter, list_filter_filter.
  apply list_filter_iff. intros r. tauto.
Qed.

(** C6.  Filtering is monotonic in the GPA range: for two criteria that
    differ only in the range, one range containing the other, every row kept
    under the narrower range is kept under the wider one (and the narrower
    result is a sub-sequence of the wider). *)
Theorem filtered_df_gpa_monotone (narrow wide : Criteria) (df : list Row) :
  result_filter narrow = result_filter wide →
  financial_filter narrow = financial_filter wide →
  english_filter narrow = english_filter wide →
  range_within (gpa_range narrow) (gpa_range wide) →
  (∀ r, r ∈ filtered_df narrow df → r ∈ filtered_df wide df) ∧
  filtered_df narrow df `sublist_of` filtered_df wide df.
Proof.
  intros Hres Hfin Heng Hin.
  assert (Hkeeps : ∀ r, keeps narrow r → keeps wide r).
  { intros r (H1 & H2 & H3 & H4). unfold keeps.
    rewrite <- Hres, <- Hfin, <- Heng. repeat split; try assumption.
    destruct (gpa r) as [v|]; cbn in *; [|done]. by apply Hin. }
  split.
  - intros r. rewrite !elem_of_filtered_df. intros [? ?]. split; [done|]. by apply Hkeeps.
  - rewrite !filtered_df_filter.
    induction df as [|r df IH]; [done|].
    rewrite !filter_cons. destruct (decide (keeps narrow r)) as [Hn|Hn].
    + rewrite decide_True by (by apply Hkeeps). by apply sublist_skip.
    + destruct (decide (keeps wide r)); [by apply sublist_cons|done].
Qed.

Lemma range_within_bounds (narrow wide : Q * Q) :
  (wide.1 <= narrow.1)%Q → (narrow.2 <= wide.2)%Q → range_within narrow wide.
Proof.
  intros Hlo Hhi v [H1 H2]. split.
  - by apply Qle_trans with narrow.1.
  - by apply Qle_trans with narrow.2.
Qed.

Lemma filtered_df_gpa_monotone_witness :
  filtered_df (Sample.gpa_only 2.0 3.0) (load_data Sample.by_gpa)
    `sublist_of` filtered_df (Sample.gpa_only 0.0 4.0) (load_data Sample.by_gpa).
Proof.
  apply (filtered_df_gpa_monotone (Sample.gpa_only 2.0 3.0) (Sample.gpa_only 0.0 4.0)).
  - reflexivity.
  - reflexivity.
  - reflexivity.
  - apply range_within_bounds; cbn; discriminate.
Defined.

(** C10.  The GPA test is never waived: whatever the criteria, every row of
    the filtered table has a GPA on file and that GPA lies in the chosen
    closed interval; so a row without GPA is in no filtered table, not even
    under the widest range of the slider, (0.0, 4.0). *)
Theorem filtered_df_gpa_always_tested (c : Criteria) (df : list Row) (r : Row) :
  r ∈ filtered_df c df →
  (∃ g, gpa r = Some g ∧ ((gpa_range c).1 <= g)%Q ∧ (g <= (gpa_range c).2)%Q) ∧
  filtered_df (Sample.gpa_only 0.0 4.0) (load_data [Sample.no_gpa]) = [].
Proof.
  intros (_ & _ & _ & _ & Hg)%elem_of_filtered_df. split; [|reflexivity].
  destruct (gpa r) as [g|]; [|done]. by exists g.
Qed.

Lemma filtered_df_gpa_always_tested_witness :
  ∃ g, gpa (derive Sample.even80) = Some g ∧ (2.0 <= g)%Q ∧ (g <= 4.0)%Q.
Proof.
  apply (filtered_df_gpa_always_tested (Sample.gpa_only 2.0 4.0)
           (load_data [Sample.no_gpa; Sample.even80]) (derive Sample.even80)).
  rewrite load_data_rowwise. cbn. left.
Defined.

(** ** Grouped means *)

Lemma elem_of_unique_from {A} `{EqDecision A} (s : Series A) (seen : list A) (x : A) :
  x ∈ foldl (fun seen x => if bool_decide (x ∈ seen) then seen else seen ++ [x]) seen s
  ↔ x ∈ seen ∨ x ∈ s.
Proof.
  revert seen. induction s as [|y s IH]; intros seen; cbn [foldl].
  - rewrite elem_of_nil. tauto.
  - rewrite IH, elem_of_cons. case_bool_decide as Hy.
    + split; [tauto|]. intros [?|[->|?]]; tauto.
    + rewrite elem_of_app, list_elem_of_singleton. tauto.
Qed.

Lemma elem_of_unique {A} `{EqDecision A} (s : Series A) (x : A) :
  x ∈ unique s ↔ x ∈ s.
Proof. unfold unique. rewrite elem_of_unique_from, elem_of_nil. tauto. Qed.

Lemma in_array_true (r : string) (arr : list label) :
  in_array r arr = true ↔ Some r ∈ arr.
Proof.
  unfold in_array. induction arr as [|x arr IH]; cbn [existsb].
  - rewrite elem_of_nil. split; [discriminate|tauto].
  - rewrite orb_true_iff, IH, elem_of_cons, label_eqb_true.
    split; (intros [H|H]; [left|by right]).
    + symmetry. apply H.
    + rewrite <- H. eauto.
Qed.

Lemma available_results_filter (order : list string) (df : list Row) :
  available_results order df
  = filter (fun k => Some k ∈ Frame.column (fun r : Row => Result r) df) order.
Proof.
  unfold available_results. apply list_filter_iff. intros k.
  rewrite Is_true_true, in_array_true. apply elem_of_unique.
Qed.

(** The rows of a key, or nothing when the key has no row. *)
Lemma groupby_lookup {R} (key : R → label) (df : list R) (k : string) :
  GroupBy.groupby key df !! k
  = match filter (fun r => key r = Some k) df with
    | [] => None
    | rows => Some rows
    end.
Proof.
  unfold GroupBy.groupby. induction df as [|r df IH]; [done|].
  cbn [foldr]. rewrite filter_cons. destruct (key r) as [k'|] eqn:Hk.
  - rewrite lookup_insert. destruct (decide (k' = k)) as [->|Hne].
    + rewrite decide_True by done. rewrite IH.
      by destruct (filter _ df).
    + rewrite decide_False by congruence. exact IH.
  - rewrite decide_False by done. exact IH.
Qed.

Lemma loc_present {V} (frame : gmap string V) (labels : list string) :
  Forall (fun l => is_Some (frame !! l)) labels →
  ∃ out, GroupBy.loc frame labels = Returned out ∧
         out.*1 = labels ∧
         Forall (fun p => frame !! p.1 = Some p.2) out.
Proof.
  induction 1 as [|l labels [v Hv] _ (out & Hout & Hfst & Hall)].
  - exists []. by repeat split.
  - exists ((l, v) :: out). cbn [GroupBy.loc]. rewrite Hv, Hout. cbn.
    rewrite Hfst. repeat split. by constructor.
Qed.

(** ** Top rows *)

Lemma filter_ext_elem_of {A} (P1 P2 : A → Prop)
    `{!∀ x, Decision (P1 x), !∀ x, Decision (P2 x)} (l : list A) :
  (∀ x, x ∈ l → P1 x ↔ P2 x) → filter P1 l = filter P2 l.
Proof.
  induction l as [|a l IH]; intros Hext; [done|].
  rewrite !filter_cons, IH by (intros x Hx; apply Hext; by right).
  apply decide_ext, Hext. left.
Qed.

Lemma filter_fmap {A B} (f : A → B) (P : B → Prop) `{!∀ y, Decision (P y)} (l : list A) :
  filter P (f <$> l) = f <$> filter (fun x => P (f x)) l.
Proof.
  induction l as [|a l IH]; [done|]. cbn [fmap list_fmap].
  rewrite !filter_cons, IH. by destruct (decide (P (f a))).
Qed.

Lemma filter_take_prefix {A} (P : A → Prop) `{!∀ x, Decision (P x)} (n : nat) (l : list A) :
  filter P (take n l) `prefix_of` filter P l.
Proof.
  exists (filter P (drop n l)). by rewrite <- filter_app, take_drop.
Qed.

Section TopNFacts.

Context {R : Type}.
Implicit Types (p : Q * R) (l : list (Q * R)).

Lemma insert_desc_perm p l : TopN.insert_desc p l ≡ₚ p :: l.
Proof.
  induction l as [|x l IH]; [done|]. cbn [TopN.insert_desc].
  destruct (Qle_bool x.1 p.1); [done|]. rewrite IH. apply Permutation_swap.
Qed.

Lemma sort_desc_perm l : TopN.sort_desc l ≡ₚ l.
Proof.
  induction l as [|p l IH]; [done|]. cbn. rewrite insert_desc_perm. by f_equiv.
Qed.

Lemma insert_desc_sorted p l :
  StronglySorted desc l → StronglySorted desc (TopN.insert_desc p l).
Proof.
  induction 1 as [|x l Hl IH Hx]; cbn [TopN.insert_desc].
  - repeat constructor.
  - destruct (Qle_bool x.1 p.1) eqn:Hle.
    + apply Qle_bool_iff in Hle. constructor; [by constructor|].
      constructor; [exact Hle|].
      eapply Forall_impl; [exact Hx|]. intros y Hy. unfold desc in *.
      by apply Qle_trans with x.1.
    + constructor; [exact IH|]. rewrite insert_desc_perm. constructor; [|exact Hx].
      unfold desc. apply Qlt_le_weak, Qnot_le_lt. intros Hle'.
      apply Qle_bool_iff in Hle'. congruence.
Qed.

Lemma sort_desc_sorted l : StronglySorted desc (TopN.sort_desc l).
Proof.
  induction l as [|p l IH]; [constructor|]. by apply insert_desc_sorted.
Qed.

(** Insertion does not move an entry past one it ties with. *)
Lemma insert_desc_ties (q : Q) p l :
  filter (fun x => q == x.1)%Q (TopN.insert_desc p l)
  = filter (fun x => q == x.1)%Q (p :: l).
Proof.
  induction l as [|x l IH]; [done|]. cbn [TopN.insert_desc].
  destruct (Qle_bool x.1 p.1) eqn:Hle; [done|].
  rewrite (filter_cons _ x), IH, !(filter_cons _ p), (filter_cons _ x).
  destruct (decide (q == p.1)%Q) as [Hp|Hp]; [|done].
  destruct (decide (q == x.1)%Q) as [Hx|Hx]; [exfalso|done].
  assert (Qle_bool x.1 p.1 = true); [|congruence].
  apply Qle_bool_iff. rewrite <- Hx, Hp. apply Qle_refl.
Qed.

Lemma sort_desc_ties (q : Q) l :
  filter (fun x => q == x.1)%Q (TopN.sort_desc l) = filter (fun x => q == x.1)%Q l.
Proof.
  induction l as [|p l IH]; [done|]. cbn [TopN.sort_desc foldr].
  rewrite insert_desc_ties, !(filter_cons _ p). fold (TopN.sort_desc l).
  by rewrite IH.
Qed.

Variable key : R → cell.

Lemma keyed_spec (df : list R) :
  Forall (fun p => key p.2 = Some p.1) (TopN.keyed key df) ∧
  (TopN.keyed key df).*2 = filter (fun r => is_Some (key r)) df.
Proof.
  unfold TopN.keyed. induction df as [|r df [IH1 IH2]]; [by split|].
  cbn [omap list_omap]. rewrite filter_cons. destruct (key r) as [q|] eqn:Hq; cbn.
  - rewrite decide_True by eauto. split; [by constructor|]. by rewrite <- IH2.
  - rewrite decide_False by (by intros [? ?]). by split.
Qed.

Lemma sort_values_desc_perm (df : list R) : TopN.sort_values_desc key df ≡ₚ df.
Proof.
  unfold TopN.sort_values_desc. rewrite sort_desc_perm.
  rewrite (proj2 (keyed_spec df)).
  rewrite <- (filter_app_complement (fun r => is_Some (key r)) df) at 3.
  f_equiv. erewrite list_filter_iff; [reflexivity|]. intros r.
  apply eq_None_not_Some.
Qed.

Lemma keyed_rows_sorted l :
  Forall (fun p => key p.2 = Some p.1) l →
  StronglySorted desc l →
  StronglySorted (fun r s => cell_ge (key r) (key s)) l.*2.
Proof.
  intros Hkeyed Hs. induction Hs as [|p l Hl IH Hp]; [constructor|].
  apply Forall_cons in Hkeyed as [Hk Hkeyed]. cbn. constructor; [by apply IH|].
  apply Forall_fmap, Forall_forall. intros x Hx. cbn.
  rewrite Forall_forall in Hp, Hkeyed. rewrite Hk, (Hkeyed x Hx). by apply Hp.
Qed.

Lemma nan_rows_sorted (df : list R) :
  StronglySorted (fun r s => cell_ge (key r) (key s)) (filter (fun r => key r = None) df).
Proof.
  induction df as [|r df IH]; [constructor|]. rewrite filter_cons.
  destruct (decide (key r = None)) as [Hr|]; [|exact IH].
  constructor; [exact IH|]. apply Forall_forall.
  intros s [Hs _]%list_elem_of_filter. by rewrite Hr, Hs.
Qed.

(** The order of the rows that tie is the one they have in the frame. *)
Lemma sort_values_desc_ties (k : cell) (df : list R) :
  filter (fun r => ties k (key r)) (TopN.sort_values_desc key df)
  = filter (fun r => ties k (key r)) df.
Proof.
  unfold TopN.sort_values_desc. rewrite filter_app.
  pose proof (keyed_spec df) as [Hkeyed Hsnd].
  assert (Hsorted : Forall (fun p => key p.2 = Some p.1)
                      (TopN.sort_desc (TopN.keyed key df))).
  { by rewrite sort_desc_perm. }
  destruct k as [q|].
  - rewrite (filter_none _ (filter _ df)), app_nil_r.
    2:{ apply Forall_forall. intros r [Hr _]%list_elem_of_filter.
        rewrite Hr. cbn. tauto. }
    rewrite filter_fmap.
    rewrite (filter_ext_elem_of _ (fun p => q == p.1)%Q (TopN.sort_desc _)).
    2:{ rewrite Forall_forall in Hsorted. intros p Hp.
        rewrite (Hsorted p Hp). cbn. tauto. }
    rewrite sort_desc_ties.
    rewrite <- (filter_ext_elem_of (fun p => ties (Some q) (key p.2)) _ (TopN.keyed _ _)).
    2:{ rewrite Forall_forall in Hkeyed. intros p Hp.
        rewrite (Hkeyed p Hp). cbn. tauto. }
    etrans; [symmetry; exact (filter_fmap snd (fun r => ties (Some q) (key r))
                                (TopN.keyed key df))|].
    rewrite Hsnd.
    apply list_filter_filter_l. intros r. destruct (key r); cbn; [eauto|tauto].
  - rewrite (filter_none _ (_.*2)), app_nil_l.
    2:{ apply Forall_fmap, Forall_forall. rewrite Forall_forall in Hsorted.
        intros p Hp. cbn. rewrite (Hsorted p Hp). cbn. tauto. }
    apply list_filter_filter_l. intros r. destruct (key r); cbn; [tauto|done].
Qed.

End TopNFacts.

(** C9.  On the empty table the grouped means are the empty frame, the
    correlation matrix is the 5 by 5 matrix of undefined entries, and
    [nlargest] is the empty table; none of them raises. *)
Theorem aggregations_of_empty_table
    (order : list string) (sqrt : Q → Q) (n : nat) (sortKey : Row → cell) :
  group_means order [] = Returned [] ∧
  mean_scores [] = Returned [] ∧
  corr_matrix sqrt [] = replicate 5 (replicate 5 None) ∧
  TopN.nlargest n sortKey [] = [] ∧
  high_risk [] = [].
Proof.
  assert (Hgm : ∀ o, group_means o [] = Returned []).
  { intros o. unfold group_means. rewrite available_results_filter.
    rewrite filter_none; [done|]. apply Forall_forall. intros k _ Hk.
    by apply elem_of_nil in Hk. }
  split; [apply Hgm|]. split; [apply Hgm|]. split; [reflexivity|].
  split; [|reflexivity]. unfold TopN.nlargest. by destruct n.
Qed.

(** The three most at-risk students of the sample: "t5", then the tied "t2"
    and "t4" in table order. *)
Example nlargest_cohort :
  (fun r : Row => student_id r) <$> TopN.nlargest 3 risk_score (load_data Sample.cohort)
    = ["t5"; "t2"; "t4"].
Proof. reflexivity. Qed.

(** Two of the three outcomes of [result_order] occur among the GPA sample
    rows kept by the range (2.0, 4.0); only they get a group. *)
Example mean_scores_by_gpa :
  (fun g => g.1)
    <$> (match mean_scores (filtered_df (Sample.gpa_only 2.0 4.0) (load_data Sample.by_gpa)) with
         | Returned groups => groups
         | Raised _ => []
         end)
  = ["Accepted"; "pending"].
Proof. reflexivity. Qed.

(** * Further properties of the script *)

(** ** The engineered columns *)

(** X1.  [load_data] only adds columns: the table it returns has the rows of
    the file, in the same order and with their raw columns unchanged. *)
Theorem load_data_keeps_raw_rows (data : list RawRow) :
  raw <$> load_data data = data ∧ length (load_data data) = length data.
Proof.
  rewrite load_data_rowwise, length_fmap. split; [|done].
  rewrite <- list_fmap_compose. induction data as [|r data IH]; [done|].
  cbn. by rewrite IH.
Qed.



Lemma Qsum_from_bounds (lo hi : Q) (vs : list Q) (acc : Q) :
  Forall (fun v => lo <= v ∧ v <= hi)%Q vs →
  (acc + lo * inject_Z (Z.of_nat (length vs)) <= foldl Qplus acc vs ∧
   foldl Qplus acc vs <= acc + hi * inject_Z (Z.of_nat (length vs)))%Q.
Proof.
  intros Hvs. revert acc. induction Hvs as [|v vs [Hlo Hhi] _ IH]; intros acc.
  - cbn [foldl length]. change (inject_Z (Z.of_nat 0)) with 0%Q. split; lra.
  - cbn [foldl length]. rewrite Nat2Z.inj_succ, <- Z.add_1_l, inject_Z_plus.
    destruct (IH (acc + v)%Q) as [IH1 IH2].
    set (n := inject_Z (Z.of_nat (length vs))) in *.
    change (inject_Z 1) with 1%Q. split; lra.
Qed.

(** The mean of numbers of an interval lies in the interval. *)
Lemma nanmean_within (lo hi : Q) (xs : Series cell) :
  Forall (cell_within lo hi) xs → cell_within lo hi (nanmean xs).
Proof.
  intros Hxs. unfold nanmean.
  assert (Hvs : Forall (fun v => lo <= v ∧ v <= hi)%Q (dropna xs)).
  { unfold dropna. induction Hxs as [|[v|] xs Hx _ IH]; cbn; [done| |done].
    by constructor. }
  destruct (dropna xs) as [|v vs] eqn:E; [done|]. rewrite <- E in *. cbn.
  destruct (Qsum_from_bounds lo hi (dropna xs) 0 Hvs) as [H1 H2].
  fold (Qsum (dropna xs)) in H1, H2.
  assert (Hn : (0 < inject_Z (Z.of_nat (length (dropna xs))))%Q).
  { rewrite E. cbn [length]. rewrite Nat2Z.inj_succ.
    change 0%Q with (inject_Z 0). rewrite <- Zlt_Qlt. lia. }
  split.
  - apply Qle_shift_div_l; [exact Hn|]. lra.
  - apply Qle_shift_div_r; [exact Hn|]. lra.
Qed.

(** X3.  Scores between 0 and 100 give metrics between 0 and 100: if every raw
    score of a row that is on file lies in [0, 100], so do its [total_score]
    and its [risk_score] whenever they are defined. *)
Theorem derived_scores_within_0_100 (data : list RawRow) (row : Row) :
  row ∈ load_data data →
  Forall (cell_within 0 100) (raw_scores row) →
  cell_within 0 100 (total_score row) ∧ cell_within 0 100 (risk_score row).
Proof.
  intros [r [_ ->]]%elem_of_load_data. cbn [raw derive total_score risk_score].
  intros Hin. split.
  - by apply nanmean_within.
  - unfold raw_scores in Hin.
    apply Forall_cons in Hin as [Hiq Hin]. apply Forall_cons in Hin as [Hen Hin].
    apply Forall_cons in Hin as [Hte Hin]. apply Forall_cons in Hin as [Hso _].
    destruct (IQ_test_score r), (English_test_score r), (technical_test_score r),
      (Soft_skills_Score r); cbn in *; try done.
    split; lra.
Qed.

Lemma derived_scores_within_0_100_witness :
  cell_within 0 100 (total_score (derive Sample.no_iq)) ∧
  cell_within 0 100 (risk_score (derive Sample.no_iq)).
Proof.
  apply (derived_scores_within_0_100 [Sample.no_iq] (derive Sample.no_iq)).
  - rewrite load_data_rowwise. cbn. left.
  - repeat constructor; cbn; discriminate.
Defined.

(** ** More on the filter *)

Lemma filter_all {A} (P : A → Prop) `{∀ x, Decision (P x)} (l : list A) :
  Forall P l → filter P l = l.
Proof.
  induction 1 as [|x l Hx _ IH]; [done|]. rewrite filter_cons_True by done.
  by rewrite IH.
Qed.

Lemma filter_sublist_mono {A} (P1 P2 : A → Prop)
    `{!∀ x, Decision (P1 x), !∀ x, Decision (P2 x)} (l : list A) :
  (∀ x, P1 x → P2 x) → filter P1 l `sublist_of` filter P2 l.
Proof.
  intros Himp. induction l as [|x l IH]; [done|].
  rewrite !filter_cons. destruct (decide (P1 x)) as [H1|H1].
  - rewrite decide_True by (by apply Himp). by apply sublist_skip.
  - destruct (decide (P2 x)); [by apply sublist_cons|done].
Qed.

(** X5.  With the widgets as first drawn the filter is not the identity: the
    table shown is the rows whose GPA is on file and lies in [0.0, 4.0]; it
    is the whole table exactly when every row has such a GPA. *)
Theorem default_view_tests_gpa_only (df : list Row) :
  filtered_df (default_criteria df) df
    = filter (fun r : Row => in_gpa_range (0.0, 4.0)%Q (gpa r)) df ∧
  (filtered_df (default_criteria df) df = df
     ↔ Forall (fun r : Row => in_gpa_range (0.0, 4.0)%Q (gpa r)) df).
Proof.
  assert (Heq : filtered_df (default_criteria df) df
                = filter (fun r : Row => in_gpa_range (0.0, 4.0)%Q (gpa r)) df).
  { rewrite filtered_df_filter. apply filter_ext_elem_of. intros r Hr.
    unfold keeps, default_criteria. cbn. split; [tauto|]. intros Hg.
    split; [|by repeat split; try left].
    apply elem_of_unique, list_elem_of_fmap. by exists r. }
  split; [exact Heq|]. rewrite Heq. split.
  - intros Hall. rewrite <- Hall. apply Forall_forall.
    by intros r [? _]%list_elem_of_filter.
  - apply filter_all.
Qed.

(** X6.  Three selections empty the table whatever the data: no outcome
    ticked in the multiselect, or the missing-value entry picked in either
    selectbox (an equality test against NaN holds for no row, not even for
    the rows whose value is missing). *)
Theorem nothing_selected_by_nan_choice (c : Criteria) (df : list Row) :
  result_filter c = [] ∨ financial_filter c = None ∨ english_filter c = None →
  filtered_df c df = [].
Proof.
  intros Hc. rewrite filtered_df_filter. apply filter_none, Forall_forall.
  intros r _ (Hres & Hfin & Heng & _). unfold passes_choice in *.
  destruct Hc as [Hc|[Hc|Hc]]; rewrite Hc in *.
  - by apply elem_of_nil in Hres.
  - destruct Hfin as [?|[[v Hv] Hnone]]; [done|]. rewrite Hv in Hnone. discriminate.
  - destruct Heng as [?|[[v Hv] Hnone]]; [done|]. rewrite Hv in Hnone. discriminate.
Qed.

(** X7.  Filters compose by conjunction and commute: filtering by one set of
    criteria and then by another keeps the rows that satisfy both, whichever
    is applied first. *)
Theorem filtered_df_compose (c1 c2 : Criteria) (df : list Row) :
  filtered_df c1 (filtered_df c2 df) = filter (fun r => keeps c1 r ∧ keeps c2 r) df ∧
  filtered_df c1 (filtered_df c2 df) = filtered_df c2 (filtered_df c1 df).
Proof.
  rewrite !filtered_df_filter, !list_filter_filter. split; [done|].
  apply list_filter_iff. intros r. tauto.
Qed.

(** X8.  Whether a row is kept depends on that row alone: the filter of two
    tables put end to end is the two filtered tables put end to end, and the
    filtered table is never longer than the input. *)
Theorem filtered_df_rowwise (c : Criteria) (df1 df2 : list Row) :
  filtered_df c (df1 ++ df2) = filtered_df c df1 ++ filtered_df c df2 ∧
  (length (filtered_df c df1) <= length df1)%nat.
Proof.
  rewrite !filtered_df_filter. split; [apply filter_app|apply length_filter].
Qed.

(** X9.  The filter is monotonic in every widget: ticking more outcomes,
    switching a selectbox to ['All'], or widening the GPA range keeps every
    row that was shown, in the same relative order. *)
Theorem filtered_df_monotone (narrow wide : Criteria) (df : list Row) :
  widens narrow wide →
  filtered_df narrow df `sublist_of` filtered_df wide df.
Proof.
  intros (Hres & Hfin & Heng & Hrange). rewrite !filtered_df_filter.
  apply filter_sublist_mono. intros r (H1 & H2 & H3 & H4). unfold keeps.
  split; [by apply Hres|]. split; [|split].
  - destruct Hfin as [Hw | Hw]; rewrite Hw; [by left|done].
  - destruct Heng as [Hw | Hw]; rewrite Hw; [by left|done].
  - destruct (gpa r) as [v|]; cbn in *; [|done]. by apply Hrange.
Qed.

Lemma nothing_selected_by_nan_choice_witness :
  filtered_df Demo.nan_aid (load_data Sample.cohort) = [].
Proof.
  apply (nothing_selected_by_nan_choice Demo.nan_aid (load_data Sample.cohort)).
  right. left. reflexivity.
Defined.

Lemma filtered_df_monotone_witness :
  filtered_df Demo.accepted_aided (load_data Sample.by_gpa)
    `sublist_of` filtered_df (Sample.gpa_only 0.0 4.0) (load_data Sample.by_gpa).
Proof.
  apply (filtered_df_monotone Demo.accepted_aided (Sample.gpa_only 0.0 4.0)).
  split; [|split; [|split]].
  - intros x Hx. apply list_elem_of_singleton in Hx. rewrite Hx. left.
  - left. reflexivity.
  - left. reflexivity.
  - apply range_within_bounds; cbn; discriminate.
Defined.

(** ** The rates of the sidebar *)

Lemma share_of_hits (value : string) (df : list Row) :
  Mask.select df (Mask.eq (Frame.column (fun r : Row => Result r) df) (Some value))
  = filter (fun r : Row => Result r = Some value) df.
Proof.
  unfold Mask.eq, Frame.column. rewrite <- list_fmap_compose, select_fmap.
  apply list_filter_iff. intros r. cbn. rewrite label_eqb_true.
  split; [tauto|]. intros Hr. split; [|done]. rewrite Hr. eauto.
Qed.

Lemma share_of_nonempty (value : string) (df : list Row) :
  df ≠ [] →
  share_of value df
  = Returned (inject_Z (Z.of_nat (length (filter (fun r : Row => Result r = Some value) df)))
              / inject_Z (Z.of_nat (length df)) * 100)%Q.
Proof.
  intros Hne. unfold share_of. rewrite share_of_hits.
  destruct (decide (length df = 0%nat)) as [Hlen|_]; [|done].
  by apply length_zero_iff_nil in Hlen.
Qed.

Lemma ratio_of_counts (a n : nat) :
  (a <= n)%nat → (0 < n)%nat →
  (0 <= inject_Z (Z.of_nat a) / inject_Z (Z.of_nat n))%Q ∧
  (inject_Z (Z.of_nat a) / inject_Z (Z.of_nat n) <= 1)%Q.
Proof.
  intros Han Hn.
  assert (HN : (0 < inject_Z (Z.of_nat n))%Q).
  { change 0%Q with (inject_Z 0). rewrite <- Zlt_Qlt. lia. }
  split.
  - apply Qle_shift_div_l; [exact HN|]. rewrite Qmult_0_l.
    change 0%Q with (inject_Z 0). rewrite <- Zle_Qle. lia.
  - apply Qle_shift_div_r; [exact HN|]. rewrite Qmult_1_l. rewrite <- Zle_Qle. lia.
Qed.

(** X10.  A rate of the sidebar cannot be computed for an empty dataset: the
    division raises [ZeroDivisionError] exactly when the table has no row;
    otherwise the rate is a percentage between 0 and 100. *)
Theorem share_of_is_percentage (value : string) (df : list Row) :
  (share_of value df = Raised "ZeroDivisionError" ↔ df = []) ∧
  (∀ cls, share_of value df = Raised cls → cls = "ZeroDivisionError") ∧
  (∀ p, share_of value df = Returned p → (0 <= p)%Q ∧ (p <= 100)%Q).
Proof.
  destruct df as [|r df].
  - cbn. split; [done|]. split; [by intros cls [= <-]|]. intros p Hp. discriminate Hp.
  - rewrite share_of_nonempty by done. split; [split; discriminate|].
    split; [discriminate|]. intros p [= <-].
    destruct (ratio_of_counts
                (length (filter (fun r0 : Row => Result r0 = Some value) (r :: df)))
                (length (r :: df))) as [H0 H1].
    + apply length_filter.
    + cbn. lia.
    + set (q := (_ / _)%Q) in *. split; lra.
Qed.

(** ** More on the grouped means *)

Lemma group_means_groups (order : list string) (df : list Row) :
  ∃ groups,
    group_means order df = Returned groups ∧
    groups.*1 = available_results order df ∧
    Forall (fun g =>
              g.2 = (fun c => nanmean (Frame.column c
                       (filter (fun r : Row => Result r = Some g.1) df))) <$> score_cols)
      groups.
Proof.
  unfold group_means.
  set (frame := GroupBy.mean score_cols (GroupBy.groupby (fun r : Row => Result r) df)).
  assert (Hlookup : ∀ k, k ∈ available_results order df →
            frame !! k = Some ((fun c => nanmean (Frame.column c
                          (filter (fun r : Row => Result r = Some k) df))) <$> score_cols)).
  { intros k Hk. rewrite available_results_filter in Hk.
    apply list_elem_of_filter in Hk as [[r [Hr Hin]]%list_elem_of_fmap _].
    unfold frame, GroupBy.mean. rewrite lookup_fmap, groupby_lookup.
    assert (Hne : r ∈ filter (fun r : Row => Result r = Some k) df).
    { apply list_elem_of_filter. by split. }
    destruct (filter _ df); [by apply elem_of_nil in Hne|done]. }
  destruct (loc_present frame (available_results order df))
    as (groups & Hloc & Hfst & Hall).
  { apply Forall_forall. intros k Hk. rewrite Hlookup; eauto. }
  exists groups. split; [exact Hloc|]. split; [exact Hfst|].
  apply Forall_forall. intros [k means] Hg.
  rewrite Forall_forall in Hall. specialize (Hall _ Hg). cbn in Hall |- *.
  rewrite Hlookup in Hall; [by injection Hall|].
  rewrite <- Hfst. apply list_elem_of_fmap. by exists (k, means).
Qed.

Lemma available_results_sublist (order : list string) (df : list Row) :
  available_results order df `sublist_of` order.
Proof. rewrite available_results_filter. apply sublist_filter. Qed.

Lemma result_colors_lookup (k : string) :
  k ∈ result_order → is_Some (result_colors !! k).
Proof.
  unfold result_order. rewrite !elem_of_cons, elem_of_nil.
  intros [->|[->|[->|[]]]]; vm_compute; eauto.
Qed.

Lemma getitem_Some {V} (d : gmap string V) (k : string) (v : V) :
  d !! k = Some v → getitem d k = Returned v.
Proof. unfold getitem. by intros ->. Qed.

Lemma bar_loop (frame : list (string * list cell)) (gs : list (string * list cell)) :
  NoDup frame.*1 →
  Forall (fun g => g ∈ frame ∧ g.1 ∈ result_order) gs →
  ∃ bars,
    mapM (fun result =>
            y ← getitem (list_to_map frame) result;
            color ← getitem result_colors result;
            mret (mkBar result y color)) gs.*1 = Returned bars ∧
    (fun b => (bar_name b, bar_y b)) <$> bars = gs ∧
    Forall (fun b => result_colors !! bar_name b = Some (marker_color b)) bars.
Proof.
  intros Hnodup Hgs. induction Hgs as [|[k means] gs [Hin Hk] _ (bars & Hbars & Hproj & Hcol)].
  - exists []. by repeat split.
  - destruct (result_colors_lookup k Hk) as [color Hcolor].
    exists (mkBar k means color :: bars). cbn [fmap list_fmap fst mapM].
    assert (Hy : (list_to_map frame : gmap string (list cell)) !! k = Some means).
    { by apply elem_of_list_to_map. }
    rewrite (getitem_Some _ _ _ Hy), (getitem_Some _ _ _ Hcolor).
    cbn. rewrite Hbars. cbn. rewrite Hproj. repeat split. by constructor.
Qed.

(** X12.  The loop that draws the grouped bar chart never raises [KeyError]:
    every outcome it visits has a column in [mean_scores] and a colour in
    [result_colors]; it adds exactly one bar trace per group of
    [mean_scores], in the same order, with that group's means as heights. *)
Theorem bar_traces_cover_mean_scores (df : list Row) :
  ∃ groups bars,
    mean_scores df = Returned groups ∧
    bar_traces df = Returned bars ∧
    (fun b => (bar_name b, bar_y b)) <$> bars = groups ∧
    Forall (fun b => result_colors !! bar_name b = Some (marker_color b)) bars.
Proof.
  destruct (group_means_groups result_order df) as (groups & Hgm & Hfst & _).
  pose proof (available_results_sublist result_order df) as Hsub.
  destruct (bar_loop groups groups) as (bars & Hbars & Hproj & Hcol).
  - rewrite Hfst. eapply sublist_NoDup; [|exact Hsub].
    unfold result_order. repeat constructor;
      rewrite ?elem_of_cons, elem_of_nil; intuition discriminate.
  - apply Forall_forall. intros g Hg. split; [done|].
    assert (Hav : g.1 ∈ available_results result_order df).
    { rewrite <- Hfst. apply list_elem_of_fmap. by exists g. }
    rewrite available_results_filter in Hav.
    by apply list_elem_of_filter in Hav as [_ ?].
  - exists groups, bars. split; [exact Hgm|]. split; [|by split].
    unfold bar_traces, mean_scores. rewrite Hgm, <- Hfst. exact Hbars.
Qed.

(** X14.  [groupby] partitions the rows by key: a row is in the group of a
    key exactly when it is a row of the table with that key, a row without
    key is in no group, no group is empty, and each group lists its rows in
    table order. *)
Theorem groupby_partitions {R} (key : R → label) (df : list R) (k : string) :
  (∀ r, (∃ rows, GroupBy.groupby key df !! k = Some rows ∧ r ∈ rows)
        ↔ r ∈ df ∧ key r = Some k) ∧
  (∀ rows, GroupBy.groupby key df !! k = Some rows →
           rows ≠ [] ∧ rows = filter (fun r => key r = Some k) df ∧
           rows `sublist_of` df).
Proof.
  rewrite groupby_lookup. split.
  - intros r.
    assert (Hmem : r ∈ filter (fun r => key r = Some k) df ↔ r ∈ df ∧ key r = Some k).
    { rewrite list_elem_of_filter. tauto. }
    rewrite <- Hmem. destruct (filter _ df) as [|r0 rows0].
    + rewrite elem_of_nil. split; [by intros (? & [=] & _)|done].
    + split; [by intros (? & [= <-] & ?)|eauto].
  - intros rows Hrows. pose proof (sublist_filter (fun r => key r = Some k) df) as Hsub.
    destruct (filter _ df) as [|r0 rows0]; [discriminate|].
    injection Hrows as <-. by repeat split.
Qed.

(** X15.  [.loc] with a list of labels raises only [KeyError], and does so
    exactly when one of the labels is missing from the frame; otherwise it
    returns one row per label asked, in the order asked. *)
Theorem loc_raises_iff_missing {V} (frame : gmap string V) (labels : list string) :
  (GroupBy.loc frame labels = Raised "KeyError" ↔ ∃ l, l ∈ labels ∧ frame !! l = None) ∧
  (∀ cls, GroupBy.loc frame labels = Raised cls → cls = "KeyError") ∧
  (∀ out, GroupBy.loc frame labels = Returned out →
          out.*1 = labels ∧ Forall (fun p => frame !! p.1 = Some p.2) out).
Proof.
  induction labels as [|l labels (IH1 & IH2 & IH3)]; cbn [GroupBy.loc].
  - split; [|split].
    + split; [discriminate|]. intros (l & Hl & _). by apply elem_of_nil in Hl.
    + discriminate.
    + by intros out [= <-].
  - destruct (frame !! l) as [v|] eqn:Hl.
    + destruct (GroupBy.loc frame labels) as [rest|cls]; cbn.
      * split; [|split].
        -- split; [discriminate|]. intros (l' & [->|Hin]%elem_of_cons & Hnone).
           ++ congruence.
           ++ destruct IH1 as [_ IH1]. discriminate IH1. eauto.
        -- discriminate.
        -- intros out [= <-]. destruct (IH3 rest eq_refl) as [Hfst Hall].
           cbn. rewrite Hfst. split; [done|]. by constructor.
      * split; [|split].
        -- rewrite (IH2 cls eq_refl) in *. split; [|done]. intros _.
           destruct IH1 as [IH1 _]. destruct (IH1 eq_refl) as (l' & Hin & Hnone).
           exists l'. split; [by right|done].
        -- intros cls' [= <-]. by apply IH2.
        -- discriminate.
    + split; [|split].
      * split; [|done]. intros _. exists l. split; [left|done].
      * by intros cls [= <-].
      * discriminate.
Qed.

(** ** More on the top rows *)

(** X18.  A row without value only fills up the ranking: when at least [n]
    rows of the table have a value in the column, every row [nlargest n]
    returns has one. *)
Theorem nlargest_prefers_defined {R} (n : nat) (sortKey : R → cell) (T : list R) :
  (n <= length (filter (fun r => is_Some (sortKey r)) T))%nat →
  Forall (fun r => is_Some (sortKey r)) (TopN.nlargest n sortKey T).
Proof.
  intros Hn. unfold TopN.nlargest, TopN.sort_values_desc.
  pose proof (keyed_spec sortKey T) as [Hkeyed Hsnd].
  assert (Hsorted : Forall (fun p => sortKey p.2 = Some p.1)
                      (TopN.sort_desc (TopN.keyed sortKey T))).
  { by rewrite sort_desc_perm. }
  rewrite take_app_le.
  - apply Forall_take, Forall_fmap. eapply Forall_impl; [exact Hsorted|].
    intros p Hp. cbn. rewrite Hp. eauto.
  - rewrite length_fmap, sort_desc_perm, <- (length_fmap snd), Hsnd. exact Hn.
Qed.

(** X19.  A table of at most [n] rows is returned whole: [nlargest n] is then
    a reordering of the table, no row dropped and none repeated. *)
Theorem nlargest_of_short_table {R} (n : nat) (sortKey : R → cell) (T : list R) :
  (length T <= n)%nat → TopN.nlargest n sortKey T ≡ₚ T.
Proof.
  intros Hn. unfold TopN.nlargest. rewrite take_ge.
  - apply sort_values_desc_perm.
  - by rewrite sort_values_desc_perm.
Qed.

Lemma nlargest_prefers_defined_witness :
  Forall (fun r : Row => is_Some (risk_score r))
    (TopN.nlargest 3 risk_score (load_data Sample.cohort)).
Proof.
  apply (nlargest_prefers_defined 3 risk_score (load_data Sample.cohort)).
  vm_compute. lia.
Defined.

Lemma nlargest_of_short_table_witness :
  high_risk (load_data Sample.cohort) ≡ₚ load_data Sample.cohort.
Proof.
  apply (nlargest_of_short_table 10 risk_score (load_data Sample.cohort)).
  vm_compute. lia.
Defined.

(** ** The correlation matrix *)

Lemma Qsum_fmap_ext {A} (f g : A → Q) (ps : list A) (a b : Q) :
  (a == b)%Q → (∀ p, f p == g p)%Q →
  (foldl Qplus a (f <$> ps) == foldl Qplus b (g <$> ps))%Q.
Proof.
  intros Hab Hfg. revert a b Hab. induction ps as [|p ps IH]; intros a b Hab; [done|].
  cbn. apply IH. by rewrite Hab, (Hfg p).
Qed.

Lemma Qsum_of_constant (c : Q) (vs : list Q) :
  Forall (fun v => v == c)%Q vs →
  (Qsum vs == c * inject_Z (Z.of_nat (length vs)))%Q.
Proof.
  intros Hvs. destruct (Qsum_from_bounds c c vs 0) as [H1 H2].
  - eapply Forall_impl; [exact Hvs|]. intros v Hv. cbn. rewrite Hv. split; apply Qle_refl.
  - unfold Qsum. apply Qle_antisym; lra.
Qed.

Lemma complete_pairs_swap (x y : Series cell) :
  complete_pairs y x = (fun p => (p.2, p.1)) <$> complete_pairs x y.
Proof.
  unfold complete_pairs. revert y. induction x as [|a x IH]; intros [|b y]; try done.
  cbn [zip zip_with omap list_omap]. rewrite IH.
  by destruct a, b.
Qed.

Section CorrFacts.

Variable sqrt : Q → Q.
Hypothesis sqrt_proper : ∀ a b, (a == b)%Q → (sqrt a == sqrt b)%Q.

Lemma pearson_swap (x y : Series cell) :
  cell_equiv (pearson sqrt x y) (pearson sqrt y x).
Proof.
  unfold pearson. rewrite (complete_pairs_swap x y), length_fmap.
  set (ps := complete_pairs x y).
  destruct (length ps <? 1)%nat; [done|].
  rewrite <- !list_fmap_compose.
  change ((fst ∘ (fun p : Q * Q => (p.2, p.1))) <$> ps) with (ps.*2).
  change ((snd ∘ (fun p : Q * Q => (p.2, p.1))) <$> ps) with (ps.*1).
  set (n := inject_Z (Z.of_nat (length ps))).
  set (mx := (Qsum ps.*1 / n)%Q). set (my := (Qsum ps.*2 / n)%Q).
  set (ssx := Qsum ((fun p : Q * Q => (p.1 - mx) * (p.1 - mx))%Q <$> ps)).
  set (ssy := Qsum ((fun p : Q * Q => (p.2 - my) * (p.2 - my))%Q <$> ps)).
  change (Qsum (((fun p : Q * Q => (p.1 - my) * (p.1 - my))%Q
                   ∘ (fun p : Q * Q => (p.2, p.1))) <$> ps)) with ssy.
  change (Qsum (((fun p : Q * Q => (p.2 - mx) * (p.2 - mx))%Q
                   ∘ (fun p : Q * Q => (p.2, p.1))) <$> ps)) with ssx.
  assert (Hdiv : (sqrt (ssx * ssy) == sqrt (ssy * ssx))%Q).
  { apply sqrt_proper, Qmult_comm. }
  assert (Hcov : (Qsum ((fun p : Q * Q => (p.1 - mx) * (p.2 - my))%Q <$> ps)
                  == Qsum (((fun p : Q * Q => (p.1 - my) * (p.2 - mx))%Q
                              ∘ (fun p : Q * Q => (p.2, p.1))) <$> ps))%Q).
  { apply Qsum_fmap_ext; [reflexivity|]. intros p. cbn. ring. }
  destruct (Qeq_bool (sqrt (ssx * ssy)) 0) eqn:E1, (Qeq_bool (sqrt (ssy * ssx)) 0) eqn:E2;
    cbn.
  - exact I.
  - apply Qeq_bool_iff in E1. apply Qeq_bool_neq in E2. apply E2. by rewrite <- Hdiv.
  - apply Qeq_bool_iff in E2. apply Qeq_bool_neq in E1. apply E1. by rewrite Hdiv.
  - by rewrite Hcov, Hdiv.
Qed.

Hypothesis sqrt_0 : (sqrt 0 == 0)%Q.

Lemma pearson_constant (x y : Series cell) (c : Q) :
  Forall (fun p => p.1 == c)%Q (complete_pairs x y) →
  pearson sqrt x y = None.
Proof.
  intros Hconst. unfold pearson. set (ps := complete_pairs x y) in *.
  destruct (length ps <? 1)%nat eqn:Hlen; [done|].
  apply Nat.ltb_ge in Hlen.
  set (n := inject_Z (Z.of_nat (length ps))).
  assert (Hn : ¬ (n == 0)%Q).
  { unfold n, Qeq. cbn. lia. }
  assert (Hmx : (Qsum ps.*1 / n == c)%Q).
  { rewrite (Qsum_of_constant c).
    - rewrite length_fmap. fold n. by field.
    - by apply Forall_fmap. }
  set (mx := (Qsum ps.*1 / n)%Q) in *.
  assert (Hssx : (Qsum ((fun p : Q * Q => (p.1 - mx) * (p.1 - mx))%Q <$> ps) == 0)%Q).
  { rewrite (Qsum_of_constant 0); [ring|]. apply Forall_fmap.
    eapply Forall_impl; [exact Hconst|]. intros p Hp. cbn. rewrite Hp, Hmx. ring. }
  set (ssx := Qsum ((fun p : Q * Q => (p.1 - mx) * (p.1 - mx))%Q <$> ps)) in *.
  match goal with
  | |- (if Qeq_bool (sqrt (ssx * ?s)) 0 then _ else _) = _ =>
      assert (Hd : (sqrt (ssx * s) == 0)%Q)
  end.
  { rewrite <- sqrt_0. apply sqrt_proper. rewrite Hssx. ring. }
  apply Qeq_bool_iff in Hd. by rewrite Hd.
Qed.

End CorrFacts.

Lemma corr_entry {R} (sqrt : Q → Q) (cols : list (R → cell)) (df : list R)
    (i j : nat) (e : cell) :
  entry (corr sqrt cols df) i j = Some e ↔
  ∃ cx cy, cols !! i = Some cx ∧ cols !! j = Some cy ∧
           e = pearson sqrt (Frame.column cx df) (Frame.column cy df).
Proof.
  unfold entry, corr. rewrite list_lookup_fmap.
  destruct (cols !! i) as [cx|]; cbn.
  - rewrite list_lookup_fmap. destruct (cols !! j) as [cy|]; cbn.
    + split; [intros [= <-]; eauto|]. by intros (? & ? & [= <-] & [= <-] & ->).
    + split; [done|]. by intros (? & ? & _ & [=] & _).
  - split; [done|]. by intros (? & ? & [=] & _).
Qed.

Lemma elem_of_complete_pairs (x y : Series cell) (p : Q * Q) :
  p ∈ complete_pairs x y → Some p.1 ∈ x.
Proof.
  unfold complete_pairs. revert y. induction x as [|a x IH]; intros [|b y] Hp;
    try by apply elem_of_nil in Hp.
  cbn [zip zip_with omap list_omap] in Hp.
  destruct a as [u|], b as [v|]; cbn in Hp;
    try (right; by apply (IH y)).
  apply elem_of_cons in Hp as [->|Hp]; [left|right; by apply (IH y)].
Qed.

(** X20.  The correlation matrix is symmetric: the entry for columns [i] and
    [j] is the same number as the entry for [j] and [i], or both are
    undefined (for any square root that gives equal results on equal
    numbers). *)
Theorem corr_matrix_symmetric (sqrt : Q → Q) (df : list Row) (i j : nat) (a b : cell) :
  (∀ u v, (u == v)%Q → (sqrt u == sqrt v)%Q) →
  entry (corr_matrix sqrt df) i j = Some a →
  entry (corr_matrix sqrt df) j i = Some b →
  cell_equiv a b.
Proof.
  intros Hsqrt. unfold corr_matrix.
  intros (cx & cy & Hi & Hj & ->)%corr_entry (cx' & cy' & Hj' & Hi' & ->)%corr_entry.
  rewrite Hi in Hi'. rewrite Hj in Hj'. injection Hi' as <-. injection Hj' as <-.
  by apply pearson_swap.
Qed.

(** X21.  A column that takes a single value on the rows where it is on file
    has no correlation with anything: its whole row of the matrix is
    undefined, and so is the whole matrix of a table of one row (for any
    square root that maps zero to zero and gives equal results on equal
    numbers). *)
Theorem corr_undefined_on_constant_column {R} (sqrt : Q → Q) (cols : list (R → cell))
    (df : list R) (i j : nat) (cx : R → cell) (c : Q) (e : cell) :
  (∀ u v, (u == v)%Q → (sqrt u == sqrt v)%Q) →
  (sqrt 0 == 0)%Q →
  cols !! i = Some cx →
  Forall (fun r => ∀ v, cx r = Some v → (v == c)%Q) df →
  entry (corr sqrt cols df) i j = Some e →
  e = None.
Proof.
  intros Hsqrt Hsqrt0 Hi Hconst (cx' & cy & Hi' & _ & ->)%corr_entry.
  rewrite Hi in Hi'. injection Hi' as <-.
  apply (pearson_constant sqrt Hsqrt Hsqrt0 _ _ c). apply Forall_forall.
  intros p Hp%elem_of_complete_pairs.
  apply list_elem_of_fmap in Hp as (r & Hr & Hin).
  rewrite Forall_forall in Hconst. by apply (Hconst r Hin).
Qed.

(** X22.  On a table of a single row every entry of the correlation matrix
    is undefined (same assumptions on the square root). *)
Theorem corr_matrix_of_single_row (sqrt : Q → Q) (r : Row) (i j : nat) (e : cell) :
  (∀ u v, (u == v)%Q → (sqrt u == sqrt v)%Q) →
  (sqrt 0 == 0)%Q →
  entry (corr_matrix sqrt [r]) i j = Some e →
  e = None.
Proof.
  intros Hsqrt Hsqrt0 (cx & cy & Hi & _ & ->)%corr_entry.
  apply (pearson_constant sqrt Hsqrt Hsqrt0 _ _ (default 0%Q (cx r))).
  apply Forall_forall. intros p Hp%elem_of_complete_pairs.
  apply list_elem_of_singleton in Hp. cbn in Hp. rewrite <- Hp. reflexivity.
Qed.

Lemma floor_sqrt_proper (u v : Q) :
  (u == v)%Q → (Demo.floor_sqrt u == Demo.floor_sqrt v)%Q.
Proof. intros Huv. unfold Demo.floor_sqrt. by rewrite (Qred_complete _ _ Huv). Qed.

Lemma corr_matrix_symmetric_witness :
  cell_equiv
    (pearson Demo.floor_sqrt
       (Frame.column (fun r : Row => IQ_test_score r) (load_data Sample.by_gpa))
       (Frame.column (fun r : Row => gpa r) (load_data Sample.by_gpa)))
    (pearson Demo.floor_sqrt
       (Frame.column (fun r : Row => gpa r) (load_data Sample.by_gpa))
       (Frame.column (fun r : Row => IQ_test_score r) (load_data Sample.by_gpa))).
Proof.
  apply (corr_matrix_symmetric Demo.floor_sqrt (load_data Sample.by_gpa) 0 4).
  - exact floor_sqrt_proper.
  - reflexivity.
  - reflexivity.
Defined.

Lemma corr_undefined_on_constant_column_witness :
  pearson Demo.floor_sqrt
    (Frame.column (fun r : Row => English_test_score r)
       (load_data [Sample.even80; Sample.no_iq]))
    (Frame.column (fun r : Row => IQ_test_score r)
       (load_data [Sample.even80; Sample.no_iq]))
  = None.
Proof.
  apply (corr_undefined_on_constant_column Demo.floor_sqrt score_cols
           (load_data [Sample.even80; Sample.no_iq]) 1 0
           (fun r : Row => English_test_score r) 80).
  - exact floor_sqrt_proper.
  - reflexivity.
  - reflexivity.
  - rewrite load_data_rowwise.
    repeat constructor; intros v Hv; injection Hv as <-; reflexivity.
  - reflexivity.
Defined.

Lemma corr_matrix_of_single_row_witness :
  pearson Demo.floor_sqrt
    (Frame.column (fun r : Row => gpa r) [derive Sample.even80])
    (Frame.column (fun r : Row => gpa r) [derive Sample.even80])
  = None.
Proof.
  apply (corr_matrix_of_single_row Demo.floor_sqrt (derive Sample.even80) 4 4).
  - exact floor_sqrt_proper.
  - reflexivity.
  - reflexivity.
Defined.

(** ** The options of the widgets *)

Lemma unique_from_NoDup {A} `{EqDecision A} (s : Series A) (seen : list A) :
  NoDup seen →
  NoDup (foldl (fun seen x => if bool_decide (x ∈ seen) then seen else seen ++ [x]) seen s).
Proof.
  revert seen. induction s as [|x s IH]; intros seen Hseen; [done|].
  cbn [foldl]. apply IH. case_bool_decide as Hx; [done|].
  apply NoDup_app. split; [done|]. split; [|apply NoDup_singleton].
  intros y Hy ->%list_elem_of_singleton. done.
Qed.


(** * The engineered columns and the group means in binary64 *)

(** ** Facts about binary64 numbers *)

Lemma SFcompare_refl (x : spec_float) : x ≠ S754_nan → SFcompare x x = Some Eq.
Proof.
  destruct x as [[]|[]| |[] m e]; cbn; try done;
    intros _; rewrite Z.compare_refl, ?Pos.compare_cont_refl; done.
Qed.

Lemma isna_spec (x : float) : B64.isna x = true ↔ Prim2SF x = S754_nan.
Proof.
  unfold B64.isna. rewrite FloatAxioms.eqb_spec. unfold SFeqb. split.
  - intros H. destruct (Prim2SF x) as [s|s| |s m e] eqn:E; [| |done|];
      rewrite SFcompare_refl in H by done; discriminate.
  - intros ->. reflexivity.
Qed.

Lemma isna_nan (x : float) : B64.isna x = true ↔ x = nan.
Proof.
  rewrite isna_spec. split.
  - intros H. apply Prim2SF_inj. rewrite H. reflexivity.
  - intros ->. reflexivity.
Qed.

Lemma isna_missing (x : float) : B64.isna x = Reading.missing x.
Proof.
  unfold Reading.missing. apply eq_true_iff_eq.
  by rewrite isna_nan, FloatAxioms.Leibniz.eqb_spec.
Qed.

Lemma missing_nan (x : float) : Reading.missing x = true ↔ x = nan.
Proof. unfold Reading.missing. apply FloatAxioms.Leibniz.eqb_spec. Qed.

Lemma mul_comm (x y : float) : (x * y = y * x)%float.
Proof.
  apply Prim2SF_inj. rewrite !FloatAxioms.mul_spec. unfold SF64mul.
  destruct (Prim2SF x) as [sx|sx| |sx mx ex], (Prim2SF y) as [sy|sy| |sy my ey];
    cbn; rewrite ?(xorb_comm sy sx); try reflexivity.
  by rewrite (Pos.mul_comm my mx), (Z.add_comm ey ex).
Qed.

(** Rounding a non-negative significand never gives NaN. *)
Lemma shr_1_nonneg (mrs : shr_record) :
  (0 <= shr_m mrs)%Z → (0 <= shr_m (shr_1 mrs))%Z.
Proof.
  destruct mrs as [m r s]. cbn. intros Hm.
  destruct m as [|[p|p|]|p]; cbn; lia.
Qed.

Lemma iter_shr_1_nonneg (p : positive) (mrs : shr_record) :
  (0 <= shr_m mrs)%Z → (0 <= shr_m (SpecFloat.iter_pos shr_1 p mrs))%Z.
Proof.
  revert mrs. induction p as [p IH|p IH|]; intros mrs Hm; cbn.
  - apply IH, IH, shr_1_nonneg, Hm.
  - apply IH, IH, Hm.
  - apply shr_1_nonneg, Hm.
Qed.

Lemma shr_fexp_nonneg (prec emax m e : Z) (l : location) :
  (0 <= m)%Z → (0 <= shr_m (shr_fexp prec emax m e l).1)%Z.
Proof.
  intros Hm. unfold shr_fexp, shr.
  assert (H0 : (0 <= shr_m (shr_record_of_loc m l))%Z).
  { destruct l as [|[]]; cbn; lia. }
  destruct (_ - e)%Z; cbn; [done| |done]. by apply iter_shr_1_nonneg.
Qed.

Lemma binary_round_aux_not_nan (prec emax : Z) (s : bool) (m e : Z) (l : location) :
  (0 <= m)%Z → binary_round_aux prec emax s m e l ≠ S754_nan.
Proof.
  intros Hm. unfold binary_round_aux.
  pose proof (shr_fexp_nonneg prec emax m e l Hm) as H1.
  destruct (shr_fexp prec emax m e l) as [mrs' e']. cbn in H1.
  assert (H2 : (0 <= round_nearest_even (shr_m mrs') (loc_of_shr_record mrs'))%Z).
  { unfold round_nearest_even. destruct (loc_of_shr_record mrs') as [|[]];
      try destruct (Z.even _); lia. }
  pose proof (shr_fexp_nonneg prec emax _ e' loc_Exact H2) as H3.
  destruct (shr_fexp prec emax _ e' loc_Exact) as [mrs'' e'']. cbn in H3.
  destruct (shr_m mrs'') as [|p|p]; [done| |lia].
  by destruct (_ <=? _)%Z.
Qed.

Lemma binary_normalize_not_nan (prec emax m e : Z) (sz : bool) :
  binary_normalize prec emax m e sz ≠ S754_nan.
Proof.
  unfold binary_normalize, binary_round.
  destruct m as [|p|p]; [done| |];
    destruct (shl_align _ _ _) as [mz ez]; apply binary_round_aux_not_nan; lia.
Qed.

Lemma SFadd_not_nan (prec emax : Z) (x y : spec_float) :
  x ≠ S754_nan → Reading.finite_sf y → SFadd prec emax x y ≠ S754_nan.
Proof.
  intros Hx Hy.
  destruct x as [sx|sx| |sx mx ex], y as [sy|sy| |sy my ey]; cbn in *; try done.
  - by destruct sx, sy.
  - apply binary_normalize_not_nan.
Qed.

Lemma SFdiv_not_nan (prec emax : Z) (x : spec_float) (sy : bool) (my : positive) (ey : Z) :
  x ≠ S754_nan → SFdiv prec emax x (S754_finite sy my ey) ≠ S754_nan.
Proof.
  intros Hx. destruct x as [sx|sx| |sx mx ex]; cbn; try done.
  unfold SFdiv_core_binary.
  set (m' := match _ with Z0 => _ | Zpos _ => _ | Zneg _ => _ end).
  assert (Hm' : (0 <= m')%Z).
  { unfold m'. destruct (_ - _ - _)%Z; [lia| |lia]. apply Z.shiftl_nonneg. lia. }
  pose proof (Z.div_eucl_eq m' (Zpos my) ltac:(lia)) as Heq.
  pose proof (Z.mod_pos_bound m' (Zpos my) ltac:(lia)) as Hmod.
  unfold Z.modulo in Hmod.
  destruct (Z.div_eucl m' (Z.pos my)) as [q r].
  apply binary_round_aux_not_nan. nia.
Qed.

Lemma not_infinite_finite (x : float) :
  is_infinity x = false → x ≠ nan → Reading.finite_sf (Prim2SF x).
Proof.
  unfold is_infinity. rewrite FloatAxioms.eqb_spec, abs_spec. intros Hinf Hnan.
  destruct (Prim2SF x) as [s|s| |s m e] eqn:E; cbn in *; try done.
  apply Hnan, Prim2SF_inj. by rewrite E.
Qed.

(** ** The engineered columns *)

Lemma load_data_b64_rowwise (data : list B64.RawRow) :
  B64.load_data data = Reading.derive <$> data.
Proof.
  unfold B64.load_data, B64.mean_axis1, Frame.columns, Frame.column.
  induction data as [|r data IH]; [done|].
  cbn [fmap list_fmap zip zip_with]. f_equal. exact IH.
Qed.

Lemma elem_of_load_data_b64 (data : list B64.RawRow) (row : B64.Row) :
  row ∈ B64.load_data data ↔ ∃ r, r ∈ data ∧ row = Reading.derive r.
Proof.
  rewrite load_data_b64_rowwise, list_elem_of_fmap.
  split; intros (r & H1 & H2); exists r; split; assumption.
Qed.

Lemma deficit_rsub (c : B64.num) : B64.to_float (B64.rsub 100 c) = Reading.deficit c.
Proof. by destruct c. Qed.

(** C2 (as amended).  For every row of the loaded table, [risk_score] is the
    weighted deficit evaluated in machine arithmetic: each [100 - score] is
    taken in the arithmetic of the score's column (int64 with wrap-around, or
    binary64), each product with 0.4, 0.3, 0.2, 0.1 and each sum is rounded
    to binary64, and the four products are added in the order technical,
    soft skills, English, IQ.  A row whose four scores are 80 has
    [total_score] 80 and [risk_score] 20 exactly. *)
Theorem risk_score_binary64 (data : list B64.RawRow) (row : B64.Row) :
  row ∈ B64.load_data data →
  B64.risk_score row
  = (0.4 * Reading.deficit (B64.technical_test_score row)
     + 0.3 * Reading.deficit (B64.Soft_skills_Score row)
     + 0.2 * Reading.deficit (B64.English_test_score row)
     + 0.1 * Reading.deficit (B64.IQ_test_score row))%float ∧
  (Reading.holds_80 (B64.IQ_test_score row) →
   Reading.holds_80 (B64.English_test_score row) →
   Reading.holds_80 (B64.technical_test_score row) →
   Reading.holds_80 (B64.Soft_skills_Score row) →
   B64.total_score row = 80%float ∧ B64.risk_score row = 20%float).
Proof.
  intros [r [_ ->]]%elem_of_load_data_b64. split.
  - cbn [B64.raw Reading.derive B64.risk_score]. unfold B64.mul.
    rewrite !deficit_rsub. by rewrite !(mul_comm (Reading.deficit _)).
  - destruct r as [res iq en te so]. unfold Reading.holds_80. cbn.
    intros [-> | ->] [-> | ->] [-> | ->] [-> | ->]; split; reflexivity.
Qed.

Lemma risk_score_binary64_witness :
  B64.total_score (Reading.derive Sample64.even80) = 80%float ∧
  B64.risk_score (Reading.derive Sample64.even80) = 20%float.
Proof.
  destruct (risk_score_binary64 [Sample64.even80] (Reading.derive Sample64.even80))
    as [_ H80].
  - rewrite load_data_b64_rowwise. cbn. left.
  - apply H80; left; reflexivity.
Defined.

(** C2 (as stated) fails: with the scores IQ 97, English 98, technical 0 and
    soft skills 89 the exact weighted deficit is 44, and the script computes
    43.999999999999993. *)
Lemma risk_score_is_rounded :
  ¬ (∀ (data : list B64.RawRow) (row : B64.Row) (iq en te so : Q),
       row ∈ B64.load_data data →
       Exact.of_cell (B64.IQ_test_score row) = Some iq →
       Exact.of_cell (B64.English_test_score row) = Some en →
       Exact.of_cell (B64.technical_test_score row) = Some te →
       Exact.of_cell (B64.Soft_skills_Score row) = Some so →
       ∃ v, Exact.of_float (B64.risk_score row) = Some v ∧
            (v == Exact.weighted_deficit iq en te so)%Q).
Proof.
  intros H.
  destruct (H [Sample64.uneven] (Reading.derive Sample64.uneven) 97%Q 98%Q 0%Q 89%Q)
    as (v & Hv & Heq); try reflexivity.
  - rewrite load_data_b64_rowwise. cbn. left.
  - vm_compute in Hv. injection Hv as <-. vm_compute in Heq. discriminate Heq.
Qed.

(** The numbers of the two sample rows, as the script prints them with 17
    digits. *)
Example engineered_columns_of_samples :
  B64.risk_score (Reading.derive Sample64.uneven) = 43.999999999999993%float ∧
  B64.total_score (Reading.derive Sample64.uneven) = 71%float ∧
  B64.total_score (Reading.derive Sample64.no_iq) = 80.333333333333329%float ∧
  B64.total_score (Reading.derive Sample64.tenths) = 0.25%float.
Proof. repeat split; reflexivity. Qed.

(** Integers become the nearest binary64 number, and [100 - x] wraps around
    at the lower end of int64. *)
Example int64_conversions :
  B64.of_int64 100 = 100%float ∧
  B64.of_int64 (-3) = (-3)%float ∧
  B64.of_int64 (2 ^ 53 + 1) = 9007199254740992%float ∧
  B64.rsub 100 (B64.I64 (- 2 ^ 63)) = B64.I64 (- 2 ^ 63 + 100).
Proof. repeat split; reflexivity. Qed.

Lemma nanmean_four (a b c d : float) :
  B64.nanmean [a; b; c; d]
  = ((Reading.contribution a + Reading.contribution b + Reading.contribution c
      + Reading.contribution d) / Reading.on_file [a; b; c; d])%float.
Proof.
  unfold B64.nanmean, Reading.on_file, Reading.contribution.
  cbn [fmap list_fmap foldl]. rewrite !isna_missing. f_equal. f_equal. f_equal. f_equal.
  apply list_filter_iff. intros x. by rewrite isna_missing.
Qed.

Lemma contribution_finite (x : float) :
  is_infinity x = false → Reading.finite_sf (Prim2SF (Reading.contribution x)).
Proof.
  intros Hinf. unfold Reading.contribution.
  destruct (Reading.missing x) eqn:Hx; [exact I|].
  apply not_infinite_finite; [exact Hinf|]. intros ->. discriminate Hx.
Qed.

Lemma add_not_nan (x y : float) :
  x ≠ nan → Reading.finite_sf (Prim2SF y) → (x + y)%float ≠ nan.
Proof.
  intros Hx Hy Hsum. apply (f_equal Prim2SF) in Hsum. rewrite FloatAxioms.add_spec in Hsum.
  revert Hsum. apply SFadd_not_nan; [|exact Hy].
  intros Hn. apply Hx, Prim2SF_inj. by rewrite Hn.
Qed.

Lemma finite_not_nan (x : float) : Reading.finite_sf (Prim2SF x) → x ≠ nan.
Proof. by intros Hx ->. Qed.

Lemma div_count_not_nan (x : float) (n : nat) :
  x ≠ nan → (1 <= n <= 4)%nat → (x / B64.of_int64 (Z.of_nat n))%float ≠ nan.
Proof.
  intros Hx Hn Hdiv. apply (f_equal Prim2SF) in Hdiv. rewrite FloatAxioms.div_spec in Hdiv.
  assert (Hc : ∃ s m e, Prim2SF (B64.of_int64 (Z.of_nat n)) = S754_finite s m e).
  { destruct n as [|[|[|[|[|n]]]]]; try lia; vm_compute; eauto. }
  destruct Hc as (s & m & e & Hc). rewrite Hc in Hdiv.
  revert Hdiv. apply SFdiv_not_nan.
  intros Hn'. apply Hx, Prim2SF_inj. by rewrite Hn'.
Qed.

Lemma on_file_bounds (a b c d : float) :
  Reading.missing a && Reading.missing b && Reading.missing c && Reading.missing d ≠ true →
  (1 <= length (filter (fun x => Reading.missing x = false) [a; b; c; d]) <= 4)%nat.
Proof.
  rewrite !filter_cons, filter_nil.
  destruct (Reading.missing a), (Reading.missing b), (Reading.missing c),
    (Reading.missing d); cbn [andb]; intros H; try done;
    repeat (case_decide; try discriminate); cbn [length]; lia.
Qed.

(** C1 (as amended).  For every row of the loaded table, [total_score] is the
    binary64 mean of the raw scores that are on file: the four scores are
    added in binary64 in the order IQ, English, technical, soft skills, a
    missing score adding 0, and the sum is divided by the number of scores on
    file.  It is undefined when all four scores are missing; when no score is
    infinite it is undefined only then. *)
Theorem total_score_binary64_mean (data : list B64.RawRow) (row : B64.Row) :
  row ∈ B64.load_data data →
  let iq := B64.to_float (B64.IQ_test_score row) in
  let en := B64.to_float (B64.English_test_score row) in
  let te := B64.to_float (B64.technical_test_score row) in
  let so := B64.to_float (B64.Soft_skills_Score row) in
  B64.total_score row
  = ((Reading.contribution iq + Reading.contribution en + Reading.contribution te
      + Reading.contribution so) / Reading.on_file [iq; en; te; so])%float ∧
  (iq = nan ∧ en = nan ∧ te = nan ∧ so = nan → B64.total_score row = nan) ∧
  (Forall (fun x => is_infinity x = false) [iq; en; te; so] →
   B64.total_score row = nan → iq = nan ∧ en = nan ∧ te = nan ∧ so = nan).
Proof.
  intros [r [_ ->]]%elem_of_load_data_b64. cbn [B64.raw Reading.derive B64.total_score].
  change (B64.to_float <$> ((fun c => c r) <$> B64.raw_score_cols))
    with [B64.to_float (B64.IQ_test_score r); B64.to_float (B64.English_test_score r);
          B64.to_float (B64.technical_test_score r);
          B64.to_float (B64.Soft_skills_Score r)].
  set (iq := B64.to_float (B64.IQ_test_score r)).
  set (en := B64.to_float (B64.English_test_score r)).
  set (te := B64.to_float (B64.technical_test_score r)).
  set (so := B64.to_float (B64.Soft_skills_Score r)).
  cbn zeta. rewrite nanmean_four. split; [reflexivity|]. split.
  - intros (-> & -> & -> & ->). reflexivity.
  - intros Hfin.
    apply Forall_cons in Hfin as [Hiq Hfin]. apply Forall_cons in Hfin as [Hen Hfin].
    apply Forall_cons in Hfin as [Hte Hfin]. apply Forall_cons in Hfin as [Hso _].
    intros Hnan.
    destruct (decide (iq = nan ∧ en = nan ∧ te = nan ∧ so = nan)) as [|Hsome]; [done|].
    exfalso. revert Hnan. apply div_count_not_nan.
    + repeat (apply add_not_nan; [|by apply contribution_finite]).
      apply finite_not_nan. by apply contribution_finite.
    + apply on_file_bounds. intros Hall. apply Hsome.
      by rewrite <- !missing_nan, <- !andb_true_iff, !andb_assoc.
Qed.

Lemma total_score_binary64_mean_witness :
  B64.total_score (Reading.derive Sample64.no_iq)
  = ((Reading.contribution nan + Reading.contribution 80 + Reading.contribution 80
      + Reading.contribution 81) / Reading.on_file [nan; 80; 80; 81])%float.
Proof.
  apply (total_score_binary64_mean [Sample64.no_iq] (Reading.derive Sample64.no_iq)).
  rewrite load_data_b64_rowwise. cbn. left.
Defined.

(** C1 (as stated) fails twice.  A row whose IQ score is missing and whose
    other scores are 80, 80 and 81 has a defined [total_score]
    (80.333333333333329); and the [total_score] of the scores 0.1, 0.2, 0.3,
    0.4, all on file, is 0.25, which is not the exact mean of these four
    binary64 numbers. *)
Lemma total_score_skips_and_rounds :
  ¬ (∀ (data : list B64.RawRow) (row : B64.Row),
       row ∈ B64.load_data data →
       (B64.total_score row = nan ↔
          B64.to_float (B64.IQ_test_score row) = nan ∨
          B64.to_float (B64.English_test_score row) = nan ∨
          B64.to_float (B64.technical_test_score row) = nan ∨
          B64.to_float (B64.Soft_skills_Score row) = nan)) ∧
  ¬ (∀ (data : list B64.RawRow) (row : B64.Row) (iq en te so : Q),
       row ∈ B64.load_data data →
       Exact.of_cell (B64.IQ_test_score row) = Some iq →
       Exact.of_cell (B64.English_test_score row) = Some en →
       Exact.of_cell (B64.technical_test_score row) = Some te →
       Exact.of_cell (B64.Soft_skills_Score row) = Some so →
       ∃ v, Exact.of_float (B64.total_score row) = Some v ∧
            (v == Exact.mean [iq; en; te; so])%Q).
Proof.
  split.
  - intros H. specialize (H [Sample64.no_iq] (Reading.derive Sample64.no_iq)).
    destruct H as [_ H]; [rewrite load_data_b64_rowwise; cbn; left|].
    specialize (H (or_introl eq_refl)). vm_compute in H.
    apply (f_equal Prim2SF) in H. vm_compute in H. discriminate H.
  - intros H.
    assert (Hin : Reading.derive Sample64.tenths ∈ B64.load_data [Sample64.tenths]).
    { rewrite load_data_b64_rowwise. cbn. left. }
    assert (Hcell : ∀ x q, Exact.of_float x = Some q →
                           Exact.of_cell (B64.F64 x) = Some q) by done.
    destruct (H _ _ _ _ _ _ Hin
                (Hcell 0.1%float _ eq_refl) (Hcell 0.2%float _ eq_refl)
                (Hcell 0.3%float _ eq_refl) (Hcell 0.4%float _ eq_refl))
      as (v & Hv & Heq).
    vm_compute in Hv. injection Hv as <-. vm_compute in Heq. discriminate Heq.
Qed.

(** ** The group means *)

Lemma kahan_add_missing (a : B64.acc) (x : float) :
  Reading.missing x = true → B64.kahan_add a x = a.
Proof. intros H. unfold B64.kahan_add. by rewrite isna_missing, H. Qed.

Lemma kahan_add_on_file (a : B64.acc) (x : float) :
  Reading.missing x = false →
  B64.kahan_add a x
  = (let y := x - B64.compensation a in
     let t := B64.sumx a + y in
     let c := t - B64.sumx a - y in
     B64.mkAcc (B64.nobs a + 1) t (if Reading.missing c then 0 else c))%float.
Proof. intros H. unfold B64.kahan_add. by rewrite !isna_missing, H. Qed.

Lemma kahan_fold (xs : list float) (a : B64.acc) :
  B64.sumx (foldl B64.kahan_add a xs)
  = Reading.compensated_sum (B64.sumx a) (B64.compensation a)
      (filter (fun x => Reading.missing x = false) xs) ∧
  B64.nobs (foldl B64.kahan_add a xs)
  = (B64.nobs a + Z.of_nat (length (filter (fun x => Reading.missing x = false) xs)))%Z.
Proof.
  revert a. induction xs as [|x xs IH]; intros a.
  - cbn. split; [done|lia].
  - cbn [foldl]. rewrite filter_cons.
    destruct (Reading.missing x) eqn:Hx.
    + rewrite kahan_add_missing by done. rewrite decide_False by done. apply IH.
    + rewrite kahan_add_on_file by done. rewrite decide_True by done.
      cbv zeta. match goal with |- context [foldl _ ?a' xs] =>
        destruct (IH a') as [IH1 IH2] end.
      rewrite IH1, IH2.
      cbn [B64.sumx B64.nobs B64.compensation length Reading.compensated_sum].
      split; [done|lia].
Qed.

Lemma finish_kahan (xs : list float) :
  B64.finish (foldl B64.kahan_add B64.acc0 xs)
  = Reading.compensated_mean (filter (fun x => Reading.missing x = false) xs).
Proof.
  unfold B64.finish. destruct (kahan_fold xs B64.acc0) as [Hs Hn].
  rewrite Hs, Hn. cbn [B64.acc0 B64.nobs B64.sumx B64.compensation].
  destruct (filter _ xs) as [|v vs]; [done|].
  rewrite Z.add_0_l. unfold Reading.compensated_mean.
  destruct (Z.eqb_spec (Z.of_nat (length (v :: vs))) 0) as [H0|_]; [|done].
  cbn [length] in H0. lia.
Qed.

Section GroupMean.

Context {R : Type} (key : R → label) (c1 c2 c3 c4 : R → B64.num).

Let cols : list (R → B64.num) := [c1; c2; c3; c4].

Lemma group_mean_step_lookup (df : list R) (st : gmap string (list B64.acc)) (k : string) :
  foldl (B64.group_mean_step key cols) st df !! k
  = match filter (fun r => key r = Some k) df with
    | [] => st !! k
    | rows =>
        Some (foldl (fun accs r =>
                       zip_with B64.kahan_add accs ((fun c => B64.to_float (c r)) <$> cols))
                (default (replicate (length cols) B64.acc0) (st !! k)) rows)
    end.
Proof.
  revert st. induction df as [|r df IH]; intros st; [done|].
  cbn [foldl]. rewrite IH, filter_cons.
  unfold B64.group_mean_step.
  destruct (key r) as [k'|] eqn:Hk.
  - destruct (decide (k' = k)) as [->|Hne].
    + rewrite decide_True by done. rewrite lookup_insert_eq. cbn [default].
      by destruct (filter _ df).
    + rewrite decide_False by congruence. by rewrite lookup_insert_ne.
  - by rewrite decide_False.
Qed.

Lemma kahan_columns (rows : list R) (a1 a2 a3 a4 : B64.acc) :
  foldl (fun accs r =>
           zip_with B64.kahan_add accs ((fun c => B64.to_float (c r)) <$> cols))
    [a1; a2; a3; a4] rows
  = [foldl B64.kahan_add a1 ((fun r => B64.to_float (c1 r)) <$> rows);
     foldl B64.kahan_add a2 ((fun r => B64.to_float (c2 r)) <$> rows);
     foldl B64.kahan_add a3 ((fun r => B64.to_float (c3 r)) <$> rows);
     foldl B64.kahan_add a4 ((fun r => B64.to_float (c4 r)) <$> rows)].
Proof.
  revert a1 a2 a3 a4. induction rows as [|r rows IH]; intros a1 a2 a3 a4; [done|].
  cbn [foldl fmap list_fmap]. unfold cols at 2. cbn [fmap list_fmap zip_with].
  apply IH.
Qed.

Lemma group_mean_lookup (df : list R) (k : string) :
  B64.group_mean key cols df !! k
  = match filter (fun r => key r = Some k) df with
    | [] => None
    | rows =>
        Some ((fun c => Reading.compensated_mean
                 (filter (fun x => Reading.missing x = false)
                    ((fun r => B64.to_float (c r)) <$> rows))) <$> cols)
    end.
Proof.
  unfold B64.group_mean. rewrite lookup_fmap, group_mean_step_lookup, lookup_empty.
  destruct (filter _ df) as [|r rows]; [done|].
  cbn [default fmap option_fmap option_map]. f_equal.
  change (replicate (length cols) B64.acc0)
    with [B64.acc0; B64.acc0; B64.acc0; B64.acc0].
  rewrite kahan_columns. unfold cols. cbn [fmap list_fmap].
  by rewrite !finish_kahan.
Qed.

End GroupMean.

Lemma available_results_b64 (order : list string) (df : list B64.Row) :
  B64.available_results order df
  = filter (fun k => Exists (fun r : B64.Row => B64.Result r = Some k) df) order.
Proof.
  unfold B64.available_results. apply list_filter_iff. intros k.
  rewrite Is_true_true, in_array_true, elem_of_unique, Exists_exists.
  unfold Frame.column. rewrite list_elem_of_fmap.
  split; intros (r & H1 & H2); exists r; split; done.
Qed.

(** C8 (as amended).  For every table and every order, the grouped means are
    computed without error.  The groups emitted are exactly the keys of the
    order that some row of the table has as its outcome, in the order's
    sequence, so no group is emitted that the table lacks, and none is
    repeated when the order has no repetition.  Every emitted group carries
    four numbers, one for each of the IQ, English, technical and soft-skills
    columns in this sequence: NaN when no row of the group has the score on
    file, and otherwise the compensated binary64 sum of the scores on file,
    taken in table order, divided in binary64 by their number. *)
Theorem group_means_binary64 (order : list string) (df : list B64.Row) :
  ∃ groups,
    B64.group_means order df = Returned groups ∧
    groups.*1 = filter (fun k => Exists (fun r : B64.Row => B64.Result r = Some k) df) order ∧
    (NoDup order → NoDup groups.*1) ∧
    Forall (fun g =>
              g.1 ∈ order ∧
              (∃ r : B64.Row, r ∈ df ∧ B64.Result r = Some g.1) ∧
              g.2 = [Reading.compensated_mean
                       (Reading.entries (fun r => B64.IQ_test_score r) g.1 df);
                     Reading.compensated_mean
                       (Reading.entries (fun r => B64.English_test_score r) g.1 df);
                     Reading.compensated_mean
                       (Reading.entries (fun r => B64.technical_test_score r) g.1 df);
                     Reading.compensated_mean
                       (Reading.entries (fun r => B64.Soft_skills_Score r) g.1 df)])
      groups.
Proof.
  unfold B64.group_means. rewrite available_results_b64.
  set (present := fun k => Exists (fun r : B64.Row => B64.Result r = Some k) df).
  set (frame := B64.group_mean (fun r : B64.Row => B64.Result r) B64.score_cols df).
  assert (Hrows : ∀ k, present k →
            filter (fun r : B64.Row => B64.Result r = Some k) df ≠ []).
  { intros k (r & Hin & Hr)%Exists_exists Hnil.
    assert (Hne : r ∈ filter (fun r : B64.Row => B64.Result r = Some k) df).
    { apply list_elem_of_filter. by split. }
    rewrite Hnil in Hne. by apply elem_of_nil in Hne. }
  assert (Hlookup : ∀ k, present k →
            frame !! k
            = Some [Reading.compensated_mean
                      (Reading.entries (fun r => B64.IQ_test_score r) k df);
                    Reading.compensated_mean
                      (Reading.entries (fun r => B64.English_test_score r) k df);
                    Reading.compensated_mean
                      (Reading.entries (fun r => B64.technical_test_score r) k df);
                    Reading.compensated_mean
                      (Reading.entries (fun r => B64.Soft_skills_Score r) k df)]).
  { intros k Hk. unfold frame, B64.score_cols. rewrite group_mean_lookup.
    specialize (Hrows k Hk). unfold Reading.entries.
    by destruct (filter _ df). }
  destruct (loc_present frame (filter present order)) as (groups & Hloc & Hfst & Hall).
  { apply Forall_forall. intros k [Hk _]%list_elem_of_filter. rewrite Hlookup; eauto. }
  exists groups. split; [exact Hloc|]. split; [exact Hfst|]. split.
  { rewrite Hfst. apply NoDup_filter. }
  apply Forall_forall. intros [k means] Hg.
  assert (Hk : k ∈ filter present order).
  { rewrite <- Hfst. apply list_elem_of_fmap. by exists (k, means). }
  apply list_elem_of_filter in Hk as [Hk Hord].
  rewrite Forall_forall in Hall. specialize (Hall _ Hg). cbn [fst snd] in Hall |- *.
  rewrite (Hlookup k Hk) in Hall. injection Hall as <-.
  split; [exact Hord|]. split; [|done].
  apply Exists_exists in Hk as (r & Hin & Hr). by exists r.
Qed.

Lemma group_means_binary64_witness :
  ∃ groups, B64.mean_scores (B64.load_data Sample64.three_tenths) = Returned groups ∧
            NoDup groups.*1.
Proof.
  destruct (group_means_binary64 result_order (B64.load_data Sample64.three_tenths))
    as (groups & Hret & _ & Hnodup & _).
  exists groups. split; [exact Hret|]. apply Hnodup.
  unfold result_order.
  repeat constructor; rewrite ?elem_of_cons, elem_of_nil; intuition discriminate.
Defined.

(** The group means of three accepted students whose IQ scores are all 0.1:
    the IQ mean is 0.10000000000000002. *)
Example mean_scores_three_tenths :
  B64.mean_scores (B64.load_data Sample64.three_tenths)
  = Returned [("Accepted",
               [0.10000000000000002; 68.333333333333329; 76.666666666666671; 85])%float].
Proof. vm_compute. reflexivity. Qed.

(** C8 (as stated) fails: the number a group carries need not be the
    arithmetic mean of the column over the group's rows.  Three accepted
    students with the IQ score 0.1 get the group mean 0.10000000000000002. *)
Lemma group_mean_is_rounded :
  ¬ (∀ (order : list string) (df : list B64.Row) (groups : list (string * list float))
       (k : string) (means : list float) (j : nat) (col : B64.Row → B64.num)
       (m : float) (vs : list Q),
       B64.group_means order df = Returned groups →
       (k, means) ∈ groups →
       B64.score_cols !! j = Some col →
       means !! j = Some m →
       mapM (fun r : B64.Row => Exact.of_cell (col r))
         (filter (fun r : B64.Row => B64.Result r = Some k) df) = Some vs →
       ∃ v, Exact.of_float m = Some v ∧ (v == Exact.mean vs)%Q).
Proof.
  intros H.
  pose (tenth := default 0%Q (Exact.of_float 0.1)).
  destruct (H result_order (B64.load_data Sample64.three_tenths) _ "Accepted"
              [0.10000000000000002; 68.333333333333329; 76.666666666666671; 85]%float
              0%nat (fun r : B64.Row => B64.IQ_test_score r) 0.10000000000000002%float
              [tenth; tenth; tenth] mean_scores_three_tenths)
    as (v & Hv & Heq); try reflexivity.
  - left.
  - vm_compute in Hv. injection Hv as <-. vm_compute in Heq. discriminate Heq.
Qed.

(** * The top rows with the sort pandas runs *)

Lemma sort_desc_sorts_descending {R} : sorts_descending (@TopN.sort_desc R).
Proof. intros l. split; [apply sort_desc_perm|apply sort_desc_sorted]. Qed.

Lemma ties_reversed_sorts_descending {R} : sorts_descending (@Demo.ties_reversed R).
Proof.
  intros l. unfold Demo.ties_reversed. split; [|apply sort_desc_sorted].
  rewrite sort_desc_perm. apply reverse_Permutation.
Qed.

Section SelectNFacts.

Context {R : Type} (kind : list (Q * R) → list (Q * R)).
Hypothesis Hkind : sorts_descending kind.
Variable key : R → cell.

Lemma selectn_sort_perm (df : list R) : SelectN.sort_values_desc kind key df ≡ₚ df.
Proof.
  unfold SelectN.sort_values_desc. rewrite (proj1 (Hkind _)).
  rewrite (proj2 (keyed_spec key df)).
  rewrite <- (filter_app_complement (fun r => is_Some (key r)) df) at 3.
  f_equiv. erewrite list_filter_iff; [reflexivity|]. intros r.
  apply eq_None_not_Some.
Qed.

Lemma selectn_sort_sorted (df : list R) :
  StronglySorted (fun r s => cell_ge (key r) (key s)) (SelectN.sort_values_desc kind key df).
Proof.
  unfold SelectN.sort_values_desc. apply StronglySorted_app_2.
  - intros r s _ [Hs _]%list_elem_of_filter. rewrite Hs. by destruct (key r).
  - apply keyed_rows_sorted; [|apply Hkind].
    rewrite (proj1 (Hkind _)). apply keyed_spec.
  - apply nan_rows_sorted.
Qed.

(** The rows without a value stay in table order. *)
Lemma selectn_sort_nan (df : list R) :
  filter (fun r => key r = None) (SelectN.sort_values_desc kind key df)
  = filter (fun r => key r = None) df.
Proof.
  unfold SelectN.sort_values_desc. rewrite filter_app.
  rewrite (filter_none _ (_.*2)), app_nil_l.
  - apply list_filter_filter_l. tauto.
  - apply Forall_fmap, Forall_forall. intros p Hp. cbn.
    rewrite (proj1 (Hkind _)) in Hp.
    pose proof (proj1 (keyed_spec key df)) as Hkeyed.
    rewrite Forall_forall in Hkeyed. by rewrite (Hkeyed p Hp).
Qed.

Lemma selectn_take (n : nat) (df : list R) :
  let top := take n (SelectN.sort_values_desc kind key df) in
  length top = n `min` length df ∧
  StronglySorted (fun r s => cell_ge (key r) (key s)) top ∧
  (∃ rest, df ≡ₚ top ++ rest ∧
           ∀ r s, r ∈ top → s ∈ rest → cell_ge (key r) (key s)) ∧
  filter (fun r => key r = None) top `prefix_of` filter (fun r => key r = None) df.
Proof.
  cbn.
  pose proof (selectn_sort_sorted df) as Hsorted.
  pose proof (selectn_sort_perm df) as Hperm.
  rewrite <- (take_drop n (SelectN.sort_values_desc kind key df)) in Hsorted.
  split; [|split; [|split]].
  - by rewrite length_take, Hperm.
  - by apply StronglySorted_app_1_l in Hsorted.
  - exists (drop n (SelectN.sort_values_desc kind key df)). split.
    + by rewrite take_drop.
    + intros r s Hr Hs. by apply (StronglySorted_app_1_elem_of _ _ _ _ _ Hsorted).
  - rewrite <- (selectn_sort_nan df). apply filter_take_prefix.
Qed.

End SelectNFacts.



(** The high-risk table of the five students under two sorts: one that
    keeps ties in the order received, one that reverses them. *)
Example high_risk_tied :
  (fun r : Row => student_id r) <$> SelectN.high_risk TopN.sort_desc (load_data Demo.tied)
    = ["r02"; "r03"; "r04"; "r05"; "r01"] ∧
  (fun r : Row => student_id r) <$> SelectN.high_risk Demo.ties_reversed (load_data Demo.tied)
    = ["r05"; "r04"; "r03"; "r02"; "r01"].
Proof. split; reflexivity. Qed.

